(** * dolph.ts: the MySQL agent, its permission gate and its task dispatcher

    A shallow embedding of [dolph.ts].  JavaScript strings are sequences of
    code units; the embedding covers the code units U+0000..U+00FF, one
    [ascii] each.  Module state ([_db], [_config]), the process environment,
    the clock and the database server are threaded through a state and
    exception monad; the mysql2 driver and the agent runtime, which are not
    part of the program, are parameters of the development. *)

From Stdlib Require Import ZArith NArith QArith Qround Ascii String DecimalString Bool List Lia.
From stdpp Require Import base option strings gmap.

Open Scope string_scope.

(* stdpp freezes [String.append] under [simpl]; the proofs below compute with it. *)
#[local] Arguments String.append !s1 s2 : simpl nomatch.

(** ** The JavaScript runtime functions the program calls *)

Module Js.

(** WhiteSpace and LineTerminator code units (ECMA-262, 12.2 and 12.3) in
    the range covered: TAB, LF, VT, FF, CR, SP and NBSP. *)
Definition isWhiteSpace (c : ascii) : bool :=
  let n := N_of_ascii c in
  ((9 <=? n) && (n <=? 13) || (n =? 32) || (n =? 160))%N.

(** Upper-casing of one code unit: a-z change.  On U+0080..U+00FF the real
    mapping stays outside ASCII, except for U+00DF, which becomes SS; the
    units of that range are kept as they are, which gives the two searches
    of the program, for a leading SELECT and for " LIMIT ", the outcome
    they have on the real mapping. *)
Definition upperChar (c : ascii) : ascii :=
  let n := N_of_ascii c in
  if ((97 <=? n) && (n <=? 122))%N then ascii_of_N (n - 32) else c.

(** [String.prototype.toUpperCase] *)
Fixpoint toUpperCase (s : string) : string :=
  match s with
  | EmptyString => EmptyString
  | String c r => String (upperChar c) (toUpperCase r)
  end.

(** [String.prototype.trimStart] *)
Fixpoint trimStart (s : string) : string :=
  match s with
  | EmptyString => EmptyString
  | String c r => if isWhiteSpace c then trimStart r else s
  end.

(** [String.prototype.trimEnd] *)
Fixpoint trimEnd (s : string) : string :=
  match s with
  | EmptyString => EmptyString
  | String c r =>
      match trimEnd r with
      | EmptyString => if isWhiteSpace c then EmptyString else String c EmptyString
      | r' => String c r'
      end
  end.

(** [String.prototype.trim] *)
Definition trim (s : string) : string := trimEnd (trimStart s).

(** [s.startsWith(p)] *)
Fixpoint startsWith (s p : string) {struct p} : bool :=
  match p, s with
  | EmptyString, _ => true
  | String a p', String b s' => Ascii.eqb a b && startsWith s' p'
  | String _ _, EmptyString => false
  end.

(** [s.includes(p)] *)
Fixpoint includes (s p : string) : bool :=
  startsWith s p ||
  match s with
  | EmptyString => false
  | String _ r => includes r p
  end.

(** JavaScript numbers, as far as the program meets them: the integers and
    NaN.  The numbers of the program are a port, a row limit, a number of
    turns and the counts of rows; fractions and the infinities, which a
    caller could pass as an override, are left out. *)
Inductive number : Type :=
  | NaN
  | Num (z : Z).

(** Truthiness of a number, as [||] tests it: 0 and NaN are falsy. *)
Definition truthyNumber (n : number) : bool :=
  match n with
  | NaN => false
  | Num z => negb (z =? 0)%Z
  end.

(** [Number.prototype.toString], what a template literal inserts: the
    decimal digits, for an integer below 10^21 in size (from there on the
    engine prints an exponent, which is not modelled). *)
Definition Number_toString (n : number) : string :=
  match n with
  | NaN => "NaN"
  | Num z => NilZero.string_of_int (Z.to_int z)
  end.

Definition digitVal (c : ascii) : option Z :=
  let n := N_of_ascii c in
  if ((48 <=? n) && (n <=? 57))%N then Some (Z.of_N (n - 48)) else None.

(** The longest prefix of decimal digits, read as an integer; [acc] is
    [None] until a digit has been seen. *)
Fixpoint parseDigits (s : string) (acc : option Z) : option Z :=
  match s with
  | EmptyString => acc
  | String c r =>
      match digitVal c with
      | Some d => parseDigits r (Some (10 * default 0%Z acc + d)%Z)
      | None => acc
      end
  end.

(** The double nearest to an integer, ties to the even mantissa; an integer
    below 2^53 in size is a double itself.  (Past the largest double the
    engine gives Infinity, which the number type leaves out.) *)
Definition toDouble (z : Z) : Z :=
  let a := Z.abs z in
  if (a <? 2 ^ 53)%Z then z
  else
    let e := (Z.log2 a - 52)%Z in
    let q := Z.shiftr a e in
    let r := (a - Z.shiftl q e)%Z in
    let half := Z.shiftl 1 (e - 1) in
    let q' := if (half <? r)%Z || ((r =? half)%Z && Z.odd q)
              then (q + 1)%Z else q in
    (Z.sgn z * Z.shiftl q' e)%Z.

(** [parseInt(s, 10)]: leading white space is skipped, one sign is read,
    and the digits that follow give the value, as a double; NaN when there
    are none. *)
Definition parseInt (s : string) : number :=
  let t := trimStart s in
  let '(neg, body) :=
    match t with
    | String "-"%char r => (true, r)
    | String "+"%char r => (false, r)
    | _ => (false, t)
    end in
  match parseDigits body None with
  | None => NaN
  | Some v => Num (toDouble (if neg then (- v)%Z else v))
  end.

(** Canonicalize of the regular-expression semantics for flag [i] without
    flag [u] (ECMA-262, 22.2.2.7.3): a code unit is upper-cased, except that
    a unit above 127 is never folded onto an ASCII one; so against the
    ASCII letters of a pattern only the ASCII letters fold. *)
Definition canonicalize (c : ascii) : ascii := upperChar c.

(** A literal pattern [p] under flag [i], anchored at the start of [s]. *)
Fixpoint matchLiteral_i (p s : string) {struct p} : bool :=
  match p, s with
  | EmptyString, _ => true
  | String a p', String b s' =>
      Ascii.eqb (canonicalize a) (canonicalize b) && matchLiteral_i p' s'
  | String _ _, EmptyString => false
  end.

End Js.

Import Js.

(** ** Query classifier and limiter *)

(** The alternatives of [WRITE_PATTERNS],
    [/^(INSERT|UPDATE|DELETE|DROP|CREATE|ALTER|TRUNCATE|REPLACE)/i]. *)
Definition WRITE_KEYWORDS : list string :=
  ["INSERT"; "UPDATE"; "DELETE"; "DROP"; "CREATE"; "ALTER"; "TRUNCATE"; "REPLACE"].

(** [WRITE_PATTERNS.test(s)]: the pattern is anchored and has no [g] flag,
    so the test keeps no state between calls. *)
Definition WRITE_PATTERNS_test (s : string) : bool :=
  existsb (fun kw => matchLiteral_i kw s) WRITE_KEYWORDS.

Definition isWriteQuery (sql : string) : bool :=
  WRITE_PATTERNS_test (trim sql).

Definition enforceLimit (sql : string) (limit : number) : string :=
  let normalized := toUpperCase (trim sql) in
  if startsWith normalized "SELECT" && negb (includes normalized " LIMIT ")
  then trim sql +:+ " LIMIT " +:+ Number_toString limit
  else sql.

(** *** The classifier and the limiter in the words of the specification *)

(** [s] begins with [kw], ignoring case. *)
Definition begins_with_ci (kw s : string) : Prop :=
  exists p r, s = p +:+ r /\ toUpperCase p = toUpperCase kw.

(** [s] contains [needle]. *)
Definition contains (needle s : string) : Prop :=
  exists a b, s = a +:+ needle +:+ b.

(** [s] ends in [suffix]. *)
Definition ends_in (suffix s : string) : Prop :=
  exists a, s = a +:+ suffix.

(** [isWriteIntent] as the specification words it. *)
Definition isWriteIntent_spec (sql : string) : Prop :=
  exists kw, In kw WRITE_KEYWORDS /\ begins_with_ci kw (trimStart sql).

(** The read-only keywords the specification names. *)
Definition READ_KEYWORDS : list string := ["SELECT"; "SHOW"; "DESCRIBE"].

(** A case-folded needle without white space, and two needles that agree on
    their common length: side conditions of the classifier's lemmas. *)
Fixpoint noWhiteSpace (kw : string) : bool :=
  match kw with
  | EmptyString => true
  | String k r => negb (isWhiteSpace (canonicalize k)) && noWhiteSpace r
  end.

Fixpoint agree (k1 k2 : string) : bool :=
  match k1, k2 with
  | String a r1, String b r2 =>
      Ascii.eqb (canonicalize a) (canonicalize b) && agree r1 r2
  | _, _ => true
  end.

(** ** Data model *)

(** An optional property [k?: A] of an object: the key can be missing,
    present with the value [undefined], or present with a value. *)
Inductive optional (A : Type) : Type :=
  | Absent
  | Undefined
  | Value (v : A).
Arguments Absent {A}.
Arguments Undefined {A}.
Arguments Value {A} v.

(** Reading the property: [None] is [undefined]. *)
Definition read {A} (p : optional A) : option A :=
  match p with
  | Value v => Some v
  | _ => None
  end.

(** [interface MySQLAgentConfig], over the kind of its properties: every
    property optional in [MySQLAgentConfig], every one required in
    [Required<MySQLAgentConfig>]. *)
Record ConfigOf (F : Type -> Type) : Type := {
  openaiApiKey : F string;
  mysqlUrl : F string;
  mysqlHost : F string;
  mysqlPort : F number;
  mysqlUser : F string;
  mysqlPass : F string;
  mysqlDb : F string;
  allowWrite : F bool;
  rowLimit : F number;
  model : F string;
  maxTurns : F number;
}.
Arguments Build_ConfigOf {F}.
Arguments openaiApiKey {F}.
Arguments mysqlUrl {F}.
Arguments mysqlHost {F}.
Arguments mysqlPort {F}.
Arguments mysqlUser {F}.
Arguments mysqlPass {F}.
Arguments mysqlDb {F}.
Arguments allowWrite {F}.
Arguments rowLimit {F}.
Arguments model {F}.
Arguments maxTurns {F}.

Abbreviation MySQLAgentConfig := (ConfigOf optional).
Abbreviation RequiredConfig := (ConfigOf (fun A : Type => A)).

(** The initial value of [_config], the object [{}]. *)
Definition emptyConfig : MySQLAgentConfig :=
  {| openaiApiKey := Absent; mysqlUrl := Absent; mysqlHost := Absent;
     mysqlPort := Absent; mysqlUser := Absent; mysqlPass := Absent;
     mysqlDb := Absent; allowWrite := Absent; rowLimit := Absent;
     model := Absent; maxTurns := Absent |}.

(** Object spread [{ ...a, ...b }], property by property: a key of [b]
    wins, also when its value is [undefined]. *)
Definition spreadProp {A} (a b : optional A) : optional A :=
  match b with
  | Absent => a
  | _ => b
  end.

Definition spread (a b : MySQLAgentConfig) : MySQLAgentConfig :=
  {| openaiApiKey := spreadProp (openaiApiKey a) (openaiApiKey b);
     mysqlUrl := spreadProp (mysqlUrl a) (mysqlUrl b);
     mysqlHost := spreadProp (mysqlHost a) (mysqlHost b);
     mysqlPort := spreadProp (mysqlPort a) (mysqlPort b);
     mysqlUser := spreadProp (mysqlUser a) (mysqlUser b);
     mysqlPass := spreadProp (mysqlPass a) (mysqlPass b);
     mysqlDb := spreadProp (mysqlDb a) (mysqlDb b);
     allowWrite := spreadProp (allowWrite a) (allowWrite b);
     rowLimit := spreadProp (rowLimit a) (rowLimit b);
     model := spreadProp (model a) (model b);
     maxTurns := spreadProp (maxTurns a) (maxTurns b) |}.

(** [a || d] on a string that may be undefined: the empty string and
    [undefined] are falsy. *)
Definition orElse (a : option string) (d : string) : string :=
  match a with
  | Some s => if String.eqb s "" then d else s
  | None => d
  end.

(** [a || d] on a number that may be undefined: 0, NaN and [undefined] are
    falsy. *)
Definition orElseNum (a : option number) (d : number) : number :=
  match a with
  | Some n => if truthyNumber n then n else d
  | None => d
  end.

(** [a ?? d]: only [undefined] gives way. *)
Definition nullish {A} (a : option A) (d : A) : A :=
  match a with
  | Some v => v
  | None => d
  end.

(** The record that [getConfig] builds from [_config] and [Bun.env]. *)
Definition resolveConfig (_config : MySQLAgentConfig) (env : gmap string string)
  : RequiredConfig :=
  {| openaiApiKey := orElse (read (openaiApiKey _config)) (orElse (env !! "OPENAI_API_KEY") "");
     mysqlUrl := orElse (read (mysqlUrl _config)) (orElse (env !! "MYSQL_URL") "");
     mysqlHost := orElse (read (mysqlHost _config)) (orElse (env !! "MYSQL_HOST") "localhost");
     mysqlPort := orElseNum (read (mysqlPort _config))
                    (parseInt (orElse (env !! "MYSQL_PORT") "3306"));
     mysqlUser := orElse (read (mysqlUser _config)) (orElse (env !! "MYSQL_USER") "root");
     mysqlPass := orElse (read (mysqlPass _config)) (orElse (env !! "MYSQL_PASS") "");
     mysqlDb := orElse (read (mysqlDb _config)) (orElse (env !! "MYSQL_DB") "mysql");
     allowWrite := nullish (read (allowWrite _config))
                     (bool_decide (env !! "MYSQL_ALLOW_WRITE" = Some "true"));
     rowLimit := orElseNum (read (rowLimit _config))
                   (parseInt (orElse (env !! "MYSQL_ROW_LIMIT") "1000"));
     model := orElse (read (model _config)) (orElse (env !! "AGENT_MODEL") "gpt-4o-mini");
     maxTurns := orElseNum (read (maxTurns _config))
                   (parseInt (orElse (env !! "AGENT_MAX_TURNS") "10")) |}.

(** [mysql.ConnectionOptions], the two shapes [getConnectionConfig] builds. *)
Inductive ConnectionOptions : Type :=
  | ByUri (uri : string)
  | ByFields (host : string) (port : number) (user password database : string).

Definition connectionOptionsOf (config : RequiredConfig) : ConnectionOptions :=
  if negb (String.eqb (mysqlUrl config) "") then ByUri (mysqlUrl config)
  else ByFields (mysqlHost config) (mysqlPort config) (mysqlUser config)
                (mysqlPass config) (mysqlDb config).

(** Values found in result rows. *)
Inductive value : Type :=
  | VNull
  | VNumber (n : number)
  | VString (s : string).

#[global] Instance number_eq_dec : EqDecision number.
Proof. solve_decision. Defined.
#[global] Instance value_eq_dec : EqDecision value.
Proof. solve_decision. Defined.

(** A row object, column name to value; a missing column reads as
    [undefined]. *)
Abbreviation Row := (gmap string value).

(** What [execute] resolves to in its first component: an array of rows,
    or the header object of a statement that returns none. *)
Inductive ExecResult : Type :=
  | Rows (rs : list Row)
  | Header (affectedRows : Z).

(** [mysql.Connection] handles, named by the driver. *)
Abbreviation Handle := nat.

(** Thrown values: [Error] objects (all the program and the driver throw),
    or anything else, kept as the text [String] gives it. *)
Inductive exn : Type :=
  | JsError (message : string)
  | Thrown (text : string).

(** [error instanceof Error ? error.message : String(error)] *)
Definition errorText (e : exn) : string :=
  match e with
  | JsError m => m
  | Thrown t => t
  end.

(** The TypeError of reading a property of [undefined] (in the wording of
    JavaScriptCore, the engine of Bun). *)
Definition TypeError_undefined (expr : string) : exn :=
  JsError ("undefined is not an object (evaluating '" +:+ expr +:+ "')").

(** The TypeError of calling what is no function.  The engine goes on, after
    these words, with the text of the call and the kind of the value found;
    the message is given up to there. *)
Definition TypeError_notFunction (expr : string) : exn :=
  JsError (expr +:+ " is not a function").

Inductive Result (A : Type) : Type :=
  | Ok (a : A)
  | Throw (e : exn).
Arguments Ok {A} a.
Arguments Throw {A} e.

(** Calls that leave the program, in the order they were made. *)
Inductive Event : Type :=
  | EvConnect (options : ConnectionOptions)
  | EvExecute (h : Handle) (sql : string) (params : list (option value))
  | EvEnd (h : Handle)
  | EvRun (message : option string).

(** The agent handed to the runtime by [createAgent] (its tool list is
    fixed). *)
Record Agent : Type := {
  agent_name : string;
  agent_model : string;
  instructions : string;
}.

(** Everything the program reads and writes: the two module variables, the
    process environment, the monotonic clock of [performance.now] (in
    nanoseconds), the state of the server behind the driver, and the calls
    made so far. *)
Record World (Server : Type) : Type := {
  _db : option Handle;
  _config : MySQLAgentConfig;
  env : gmap string string;
  clock : N;
  server : Server;
  trace : list Event;
}.
Arguments Build_World {Server}.
Arguments _db {Server}.
Arguments _config {Server}.
Arguments env {Server}.
Arguments clock {Server}.
Arguments server {Server}.
Arguments trace {Server}.

(** The collaborators outside the program: [mysql2/promise] and the agent
    runtime.  [createConnection] and [execute] may reject; [end] resolves
    whatever happens (the promise wrapper of mysql2 passes the outcome of
    the close to [resolve]).  The runtime may open the connection and run
    statements through the tools it is given.  [elapse] is the time that
    passes, by the clock, over one step. *)
Record Driver (Server : Type) : Type := {
  createConnection : ConnectionOptions -> Server -> Server * Result Handle;
  execute : Handle -> string -> list (option value) -> Server -> Server * Result ExecResult;
  end_ : Handle -> Server -> Server;
  run : Agent -> option string -> number ->
        option Handle * Server -> (option Handle * Server) * Result (option string);
  elapse : N -> Server -> N;
}.
Arguments createConnection {Server}.
Arguments execute {Server}.
Arguments end_ {Server}.
Arguments run {Server}.
Arguments elapse {Server}.

(** ** The monad of the program: state and exceptions *)

Definition M (Server : Type) (A : Type) : Type :=
  World Server -> World Server * Result A.

#[global] Instance M_ret {Server} : MRet (M Server) :=
  fun A a w => (w, Ok a).

#[global] Instance M_bind {Server} : MBind (M Server) :=
  fun A B f m w =>
    match m w with
    | (w', Ok a) => f a w'
    | (w', Throw e) => (w', Throw e)
    end.

#[global] Instance M_fmap {Server} : FMap (M Server) :=
  fun A B f m w =>
    match m w with
    | (w', Ok a) => (w', Ok (f a))
    | (w', Throw e) => (w', Throw e)
    end.

Definition throw {Server A} (e : exn) : M Server A :=
  fun w => (w, Throw e).

(** [try { body } catch (error) { handler }] *)
Definition try_catch {Server A} (body : M Server A) (handler : exn -> M Server A)
  : M Server A :=
  fun w =>
    match body w with
    | (w', Ok a) => (w', Ok a)
    | (w', Throw e) => handler e w'
    end.

(** Reading a property of a value that may be [undefined]. *)
Definition member {Server A B} (expr : string) (o : option A) (f : A -> B)
  : M Server B :=
  match o with
  | Some a => mret (f a)
  | None => throw (TypeError_undefined expr)
  end.

(** [Promise.all] over calls that each hand one statement to the driver
    as they are started, in list order (the callbacks of [listTablesImpl]):
    every call runs, and the first failure, if any, is the outcome.  The
    driver queues the statements of one connection and answers them in
    the order they were handed over. *)
Fixpoint promise_all {Server A} (ps : list (M Server A)) : M Server (list A) :=
  match ps with
  | [] => mret []
  | p :: rest =>
      fun w =>
        let '(w1, r) := p w in
        let '(w2, rs) := promise_all rest w1 in
        (w2, match r, rs with
             | Ok a, Ok l => Ok (a :: l)
             | Throw e, _ => Throw e
             | Ok _, Throw e => Throw e
             end)
  end.

(** The promise of a call: the call is made, and its outcome is a value. *)
Definition settle {Server A} (m : M Server A) : M Server (Result A) :=
  fun w => let '(w', r) := m w in (w', Ok r).

(** One [await] further for every call in flight under [Promise.all].
    Calls that await several times, as those of [getSchemaImpl] do for
    [getAllSchemasImpl], do not run one after the other: all are started,
    and each goes on when what it awaits is answered, which is in the
    order the statements were handed over.  So the calls advance in turns:
    in each turn every call still running takes its next step, in list
    order; a call that has failed takes none.  [rejection] is the first
    failure so far, the one [Promise.all] rejects with.  ([Promise.all]
    does not cancel the other calls when it rejects: they run on, and the
    statements they send are accounted for here.) *)
Fixpoint turn {Server X Y} (step : X -> M Server Y) (calls : list (Result X))
    (rejection : option exn) : M Server (list (Result Y) * option exn) :=
  match calls with
  | [] => mret ([], rejection)
  | Throw e :: rest =>
      p ← turn step rest rejection;
      mret (Throw e :: fst p, snd p)
  | Ok x :: rest =>
      r ← settle (step x);
      p ← turn step rest (match rejection, r with
                          | None, Throw e => Some e
                          | _, _ => rejection
                          end);
      mret (r :: fst p, snd p)
  end.

(** The values of the calls that returned. *)
Fixpoint fulfilled {A} (calls : list (Result A)) : list A :=
  match calls with
  | [] => []
  | Ok a :: rest => a :: fulfilled rest
  | Throw _ :: rest => fulfilled rest
  end.

(** ** The program

    The statements sent to the server, as the template literals of the
    source spell them. *)

Definition SQL_TEST_CONNECTION : string :=
"
    SELECT
      VERSION() as version,
      DATABASE() as db_name,
      USER() as db_user
  ".

Definition SQL_LIST_TABLES : string :=
"
    SELECT
      TABLE_NAME as table_name,
      TABLE_TYPE as table_type,
      ENGINE as engine,
      TABLE_ROWS as estimated_rows,
      CREATE_TIME as created_at,
      UPDATE_TIME as updated_at
    FROM information_schema.TABLES
    WHERE TABLE_SCHEMA = DATABASE()
    ORDER BY TABLE_NAME
  ".

Definition SQL_COLUMNS : string :=
"
    SELECT
      COLUMN_NAME as name,
      DATA_TYPE as type,
      COLUMN_TYPE as full_type,
      IS_NULLABLE as nullable,
      COLUMN_DEFAULT as default_value,
      COLUMN_KEY as key_type,
      EXTRA as extra,
      COLUMN_COMMENT as comment
    FROM information_schema.COLUMNS
    WHERE TABLE_SCHEMA = DATABASE() AND TABLE_NAME = ?
    ORDER BY ORDINAL_POSITION
  ".

Definition SQL_INDEXES : string :=
"
    SELECT
      INDEX_NAME as name,
      GROUP_CONCAT(COLUMN_NAME ORDER BY SEQ_IN_INDEX) as columns,
      NON_UNIQUE as non_unique,
      INDEX_TYPE as type
    FROM information_schema.STATISTICS
    WHERE TABLE_SCHEMA = DATABASE() AND TABLE_NAME = ?
    GROUP BY INDEX_NAME, NON_UNIQUE, INDEX_TYPE
  ".

Definition SQL_FOREIGN_KEYS : string :=
"
    SELECT
      CONSTRAINT_NAME as name,
      COLUMN_NAME as column_name,
      REFERENCED_TABLE_NAME as referenced_table,
      REFERENCED_COLUMN_NAME as referenced_column
    FROM information_schema.KEY_COLUMN_USAGE
    WHERE TABLE_SCHEMA = DATABASE()
      AND TABLE_NAME = ?
      AND REFERENCED_TABLE_NAME IS NOT NULL
  ".

Definition SQL_BASE_TABLES : string :=
"
    SELECT TABLE_NAME as name
    FROM information_schema.TABLES
    WHERE TABLE_SCHEMA = DATABASE() AND TABLE_TYPE = 'BASE TABLE'
  ".


(** The exact-count statement of [listTablesImpl], around the table name. *)
Definition SQL_COUNT (table_name : string) : string :=
  "SELECT COUNT(*) as count FROM `" +:+ table_name +:+ "`".

(** The instruction text of [createAgent], around the row limit. *)
Definition INSTRUCTIONS_HEAD : string :=
"You are a MySQL database assistant. Help users explore and query databases safely.

## Tools Available
- test_connection: Verify database connectivity
- list_tables: List all tables with metadata
- get_schema: Inspect table structure
- get_all_schemas: Get all table schemas
- run_query: Execute SQL queries

## Guidelines
1. Always test connection first
2. Explore schema before writing queries
3. Write efficient queries with appropriate filters
4. Explain what you're doing
5. Summarize large results

## Security
- Queries are READ-ONLY by default
- SELECT limited to ".

Definition INSTRUCTIONS_TAIL : string :=
" rows
- Never expose credentials".

(** [String(v)], as a template literal converts a value. *)
Definition String_of (v : option value) : string :=
  match v with
  | None => "undefined"
  | Some VNull => "null"
  | Some (VNumber n) => Number_toString n
  | Some (VString s) => s
  end.

Fixpoint allDigits (s : string) : bool :=
  match s with
  | EmptyString => true
  | String c r => bool_decide (is_Some (digitVal c)) && allDigits r
  end.

(** [Number(v)]; of the numeric literals a string may hold, the decimal
    integers are the ones the number model has. *)
Definition Number_of (v : option value) : number :=
  match v with
  | None => NaN
  | Some VNull => Num 0
  | Some (VNumber n) => n
  | Some (VString s) =>
      let t := trim s in
      let body := match t with
                  | String "-"%char r => r
                  | String "+"%char r => r
                  | _ => t
                  end in
      if String.eqb t "" then Num 0
      else if allDigits body && negb (String.eqb body "") then parseInt t
      else NaN
  end.

(** [rows[0]]: the first element of an array; [undefined] on an empty
    array and on a header object. *)
Definition firstRow (r : ExecResult) : option Row :=
  match r with
  | Rows (x :: _) => Some x
  | _ => None
  end.

(** [Array.isArray(result) ? result : []] *)
Definition arrayOrEmpty (r : ExecResult) : list Row :=
  match r with
  | Rows rs => rs
  | Header _ => []
  end.

(** The reading of a clock of nanoseconds, in milliseconds.  Durations are
    computed exactly here; the engine computes them on doubles, which can
    move a value that stands next to a half across it before the rounding
    (1.005 is rounded to 1 there and to 1.01 here).  Sign and order are
    the same on both. *)
Definition now_ms (clock : N) : Q := (inject_Z (Z.of_N clock) / 1000000)%Q.

(** [Math.round]: to the nearest integer, halves upwards. *)
Definition Math_round (x : Q) : Z := Qfloor (x + (1 # 2))%Q.

(** [Math.round(x * 100) / 100] *)
Definition round2 (x : Q) : Q := (inject_Z (Math_round (x * 100)) / 100)%Q.

(** [enum MySQLAgentTasks] *)
Definition TEST_CONNECTION : string := "test-connection".
Definition LIST_TABLES : string := "list-tables".
Definition GET_SCHEMA : string := "get-schema".
Definition GET_ALL_SCHEMAS : string := "get-all-schemas".
Definition QUERY : string := "query".
Definition CHAT : string := "chat".

(** The [params] object of a task request, as it is at run time: any of
    the properties the variants declare may be missing. *)
Record Params : Type := {
  includeRowCounts : option bool;
  tableName : option string;
  sql : option string;
  params_allowWrite : option bool;
  message : option string;
}.

(** [type TaskParams], as it is at run time: an object with a [task] tag
    and, for some tags, [params]. *)
Record TaskParams : Type := {
  task : option string;
  params : option Params;
}.

Definition noParams : Params :=
  {| includeRowCounts := None; tableName := None; sql := None;
     params_allowWrite := None; message := None |}.

(** The request [{ task: QUERY, params: { sql, allowWrite } }]. *)
Definition queryTask (sql : option string) (allowWrite : option bool) : TaskParams :=
  {| task := Some QUERY;
     params := Some {| includeRowCounts := None; tableName := None; sql := sql;
                       params_allowWrite := allowWrite; message := None |} |}.

Record ConnectionInfo : Type := {
  version : option value;
  database : option value;
  user : option value;
}.

(** [interface TableSchema]; the three arrays are what [execute] returned,
    cast without a check. *)
Record TableSchema : Type := {
  table : option value;
  columns : ExecResult;
  indexes : ExecResult;
  foreign_keys : ExecResult;
}.

Record QueryResult : Type := {
  rows : list Row;
  row_count : nat;
  query_duration_ms : Q;
}.

(** The [data] of an envelope, by the executor that produced it. *)
Inductive Data : Type :=
  | DConnectionInfo (info : ConnectionInfo)
  | DTables (tables : ExecResult)
  | DSchema (schema : TableSchema)
  | DSchemas (schemas : list TableSchema)
  | DQuery (result : QueryResult)
  | DFinalOutput (output : option string).

(** [interface AgentResult]: [None] is a property left out. *)
Record AgentResult : Type := {
  success : bool;
  data : option Data;
  error : option string;
  duration_ms : option Q;
}.

(** The second argument of [executeQuery]. *)
Record QueryOptions : Type := {
  options_allowWrite : option bool;
  options_config : option MySQLAgentConfig;
}.

Section Program.

Context {Server : Type} (drv : Driver Server).

(** One call outside the program: the server moves on, the clock advances,
    the call is recorded. *)
Definition outside (ev : Event) (sv : Server) (w : World Server) : World Server :=
  {| _db := _db w; _config := _config w; env := env w;
     clock := clock w + elapse drv (clock w) sv;
     server := sv;
     trace := trace w ++ [ev] |}.

(** Time passing inside the program. *)
Definition tick (w : World Server) : World Server :=
  {| _db := _db w; _config := _config w; env := env w;
     clock := clock w + elapse drv (clock w) (server w);
     server := server w;
     trace := trace w |}.

(** [performance.now()], in milliseconds. *)
Definition performance_now : M Server Q :=
  fun w => (tick w, Ok (now_ms (clock w))).

(** [mysql.createConnection(options)] *)
Definition mysql_createConnection (options : ConnectionOptions) : M Server Handle :=
  fun w =>
    let '(sv, r) := createConnection drv options (server w) in
    (outside (EvConnect options) sv w, r).

(** [db.execute(sql, params)], first component of what it resolves to *)
Definition db_execute (db : Handle) (sql : string) (params : list (option value))
  : M Server ExecResult :=
  fun w =>
    let '(sv, r) := execute drv db sql params (server w) in
    (outside (EvExecute db sql params) sv w, r).

(** [db.end()] *)
Definition db_end (db : Handle) : M Server unit :=
  fun w => (outside (EvEnd db) (end_ drv db (server w)) w, Ok tt).

(** [run(agent, message, { maxTurns })], reduced to its [finalOutput] *)
Definition run_agent (agent : Agent) (message : option string) (maxTurns : number)
  : M Server (option string) :=
  fun w =>
    let '((db, sv), r) := run drv agent message maxTurns (_db w, server w) in
    let w' := outside (EvRun message) sv w in
    ({| _db := db; _config := _config w'; env := env w'; clock := clock w';
        server := server w'; trace := trace w' |}, r).

Definition get_db : M Server (option Handle) :=
  fun w => (w, Ok (_db w)).

Definition set_db (db : option Handle) : M Server unit :=
  fun w => ({| _db := db; _config := _config w; env := env w; clock := clock w;
               server := server w; trace := trace w |}, Ok tt).

Definition get_config : M Server MySQLAgentConfig :=
  fun w => (w, Ok (_config w)).

Definition set_config (c : MySQLAgentConfig) : M Server unit :=
  fun w => ({| _db := _db w; _config := c; env := env w; clock := clock w;
               server := server w; trace := trace w |}, Ok tt).

Definition Bun_env : M Server (gmap string string) :=
  fun w => (w, Ok (env w)).

(** *** Database connection *)

Definition getConfig : M Server RequiredConfig :=
  _config ← get_config;
  env ← Bun_env;
  mret (resolveConfig _config env).

Definition getConnectionConfig : M Server ConnectionOptions :=
  config ← getConfig;
  mret (connectionOptionsOf config).

Definition getConnection : M Server Handle :=
  db ← get_db;
  match db with
  | Some h => mret h
  | None =>
      options ← getConnectionConfig;
      h ← mysql_createConnection options;
      set_db (Some h);;
      mret h
  end.

Definition closeConnection : M Server unit :=
  db ← get_db;
  match db with
  | Some h => db_end h;; set_db None
  | None => mret tt
  end.

Definition configureAgent (config : MySQLAgentConfig) : M Server unit :=
  _config ← get_config;
  set_config (spread _config config);;
  db ← get_db;
  match db with
  | Some h => db_end h;; set_db None
  | None => mret tt
  end.

(** *** Tool implementations *)

Definition testConnectionImpl : M Server ConnectionInfo :=
  db ← getConnection;
  rows ← db_execute db SQL_TEST_CONNECTION [];
  let info := firstRow rows in
  version ← member "info.version" info (fun r => r !! "version");
  mret {| version := version;
          database := info ≫= (fun r => r !! "db_name");
          user := info ≫= (fun r => r !! "db_user") |}.

(** The body of the [tables.map] callback of [listTablesImpl]. *)
Definition withExactRowCount (db : Handle) (t : Row) : M Server Row :=
  if bool_decide (t !! "table_type" = Some (VString "BASE TABLE")) then
    countRows ← db_execute db (SQL_COUNT (String_of (t !! "table_name"))) [];
    count ← member "countRows[0].count" (firstRow countRows) (fun r => r !! "count");
    mret (<["exact_row_count" := VNumber (Number_of count)]> t)
  else mret t.

Definition listTablesImpl (includeRowCounts : option bool) : M Server ExecResult :=
  let includeRowCounts := default false includeRowCounts in
  db ← getConnection;
  rows ← db_execute db SQL_LIST_TABLES [];
  let tables := rows in
  if includeRowCounts then
    match tables with
    | Rows ts => Rows <$> promise_all (map (withExactRowCount db) ts)
    | Header _ => throw (TypeError_notFunction "tables.map")
    end
  else mret tables.

Definition getSchemaImpl (tableName : option value) : M Server TableSchema :=
  db ← getConnection;
  colRows ← db_execute db SQL_COLUMNS [tableName];
  idxRows ← db_execute db SQL_INDEXES [tableName];
  fkRows ← db_execute db SQL_FOREIGN_KEYS [tableName];
  mret {| table := tableName; columns := colRows; indexes := idxRows;
          foreign_keys := fkRows |}.

(** [Promise.all(names.map(getSchemaImpl))]: the calls of [getSchemaImpl],
    all started and advancing in turns, one [await] of its body each. *)
Definition getSchemaImpl_all (tableNames : list (option value))
  : M Server (list TableSchema) :=
  p0 ← turn (fun tableName =>
               db ← getConnection;
               mret (tableName, db))
            (map Ok tableNames) None;
  p1 ← turn (fun '(tableName, db) =>
               colRows ← db_execute db SQL_COLUMNS [tableName];
               mret (tableName, db, colRows))
            (fst p0) (snd p0);
  p2 ← turn (fun '(tableName, db, colRows) =>
               idxRows ← db_execute db SQL_INDEXES [tableName];
               mret (tableName, db, colRows, idxRows))
            (fst p1) (snd p1);
  p3 ← turn (fun '(tableName, db, colRows, idxRows) =>
               fkRows ← db_execute db SQL_FOREIGN_KEYS [tableName];
               mret {| table := tableName; columns := colRows; indexes := idxRows;
                       foreign_keys := fkRows |})
            (fst p2) (snd p2);
  match snd p3 with
  | Some e => throw e
  | None => mret (fulfilled (fst p3))
  end.

Definition getAllSchemasImpl : M Server (list TableSchema) :=
  db ← getConnection;
  rows ← db_execute db SQL_BASE_TABLES [];
  match rows with
  | Rows ts => getSchemaImpl_all (map (fun t : Row => t !! "name") ts)
  | Header _ => throw (TypeError_notFunction "rows.map")
  end.

(** The parameter [allowWrite = false] is [callerAllowWrite] here, apart
    from the property [allowWrite] of the configuration. *)
Definition runQueryImpl (sql : option string) (callerAllowWrite : option bool)
  : M Server QueryResult :=
  let callerAllowWrite := default false callerAllowWrite in
  config ← getConfig;
  db ← getConnection;
  (* isWriteQuery(sql) evaluates sql.trim() *)
  sql ← member "sql.trim" sql (fun s => s);
  (if isWriteQuery sql then
     if negb callerAllowWrite then
       throw (JsError "Write operations require allowWrite=true parameter")
     else if negb (allowWrite config) then
       throw (JsError "Write operations disabled by configuration. Set MYSQL_ALLOW_WRITE=true")
     else mret tt
   else mret tt);;
  let finalSql := enforceLimit sql (rowLimit config) in
  startTime ← performance_now;
  result ← db_execute db finalSql [];
  now ← performance_now;
  let duration := (now - startTime)%Q in
  let rows := arrayOrEmpty result in
  mret {| rows := rows; row_count := length rows;
          query_duration_ms := round2 duration |}.

(** *** Agent definition *)

Definition createAgent : M Server Agent :=
  config ← getConfig;
  mret {| agent_name := "MySQL Assistant";
          agent_model := model config;
          instructions := INSTRUCTIONS_HEAD +:+ Number_toString (rowLimit config)
                          +:+ INSTRUCTIONS_TAIL |}.

(** *** Public API *)

(** The [switch] of [executeMySQLTask], with the evaluation of its
    discriminant [taskInput.task]. *)
Definition dispatch (taskInput : option TaskParams) : M Server Data :=
  tag ← member "taskInput.task" taskInput task;
  if bool_decide (tag = Some TEST_CONNECTION) then
    DConnectionInfo <$> testConnectionImpl
  else if bool_decide (tag = Some LIST_TABLES) then
    (* taskInput.params?.includeRowCounts *)
    DTables <$> listTablesImpl ((taskInput ≫= params) ≫= includeRowCounts)
  else if bool_decide (tag = Some GET_SCHEMA) then
    tableName ← member (B:=option string) "taskInput.params.tableName"
                   (taskInput ≫= params) tableName;
    DSchema <$> getSchemaImpl (option_map VString tableName)
  else if bool_decide (tag = Some GET_ALL_SCHEMAS) then
    DSchemas <$> getAllSchemasImpl
  else if bool_decide (tag = Some QUERY) then
    sql ← member "taskInput.params.sql" (taskInput ≫= params) sql;
    allowWrite ← member "taskInput.params.allowWrite" (taskInput ≫= params) params_allowWrite;
    DQuery <$> runQueryImpl sql allowWrite
  else if bool_decide (tag = Some CHAT) then
    agent ← createAgent;
    message ← member "taskInput.params.message" (taskInput ≫= params) message;
    config ← getConfig;
    DFinalOutput <$> run_agent agent message (maxTurns config)
  else
    throw (JsError ("Unknown task: " +:+ default "undefined" tag)).

Definition executeMySQLTask (taskInput : option TaskParams)
    (config : option MySQLAgentConfig) : M Server AgentResult :=
  match config with
  | Some c => configureAgent c
  | None => mret tt
  end;;
  startTime ← performance_now;
  try_catch
    (data ← dispatch taskInput;
     now ← performance_now;
     mret {| success := true; data := Some data; error := None;
             duration_ms := Some (round2 (now - startTime)%Q) |})
    (fun error =>
       now ← performance_now;
       mret {| success := false; data := None; error := Some (errorText error);
               duration_ms := Some (round2 (now - startTime)%Q) |}).

Definition runMySQLAgent (prompt : option string) (config : option MySQLAgentConfig)
  : M Server AgentResult :=
  executeMySQLTask
    (Some {| task := Some CHAT;
             params := Some {| includeRowCounts := None; tableName := None;
                               sql := None; params_allowWrite := None;
                               message := prompt |} |})
    config.

Definition executeQuery (sql : option string) (options : option QueryOptions)
  : M Server AgentResult :=
  match options ≫= options_config with
  | Some c => configureAgent c
  | None => mret tt
  end;;
  executeMySQLTask (Some (queryTask sql (options ≫= options_allowWrite))) None.

End Program.


(** The two messages of the permission gate. *)
Definition CALLER_GATE : string :=
  "Write operations require allowWrite=true parameter".

Definition CONFIG_GATE : string :=
  "Write operations disabled by configuration. Set MYSQL_ALLOW_WRITE=true".

(** ** Vocabulary of the properties *)

(** The statements handed to [execute], oldest first. *)
Fixpoint executed (t : list Event) : list string :=
  match t with
  | [] => []
  | EvExecute _ sql _ :: r => sql :: executed r
  | _ :: r => executed r
  end.

(** The clock never runs backwards over a computation. *)
Definition clock_mono {Server A} (m : M Server A) : Prop :=
  forall w, (clock w <= clock (fst (m w)))%N.

(** The state in which [executeMySQLTask] enters its [try] block: after
    the optional reconfiguration and the first reading of the clock. *)
Definition entering {Server} (drv : Driver Server)
    (config : option MySQLAgentConfig) (w : World Server) : World Server :=
  fst (performance_now drv
         (fst (match config with
               | Some c => configureAgent drv c
               | None => mret tt
               end w))).

(** What the envelope says of an outcome, its duration apart: success and
    the data, or failure and the message of an [Error], or the text of any
    other thrown value. *)
Definition reported {A} (inj : A -> Data) (o : Result A) (r : AgentResult) : Prop :=
  match o with
  | Ok x => success r = true /\ data r = Some (inj x) /\ error r = None
  | Throw (JsError message) =>
      success r = false /\ data r = None /\ error r = Some message
  | Throw (Thrown text) =>
      success r = false /\ data r = None /\ error r = Some text
  end.

(** The options [getConnection] would connect with. *)
Definition connectOptions {Server} (w : World Server) : ConnectionOptions :=
  connectionOptionsOf (resolveConfig (_config w) (env w)).

(** A handle is at hand: memoized, or the server accepts the connection. *)
Definition connection_available {Server} (drv : Driver Server) (w : World Server)
  : Prop :=
  match _db w with
  | Some _ => True
  | None => exists sv h, createConnection drv (connectOptions w) (server w) = (sv, Ok h)
  end.

(** The write-enabled flag of the resolved configuration. *)
Definition writeEnabled {Server} (w : World Server) : bool :=
  allowWrite (resolveConfig (_config w) (env w)).

(** *** The configuration resolver in the words of the specification *)








(** ** A small driver to run the program against

    One table, [users], of which only the row count is kept.  A statement
    the classifier calls a write adds a row; any other statement answers
    with the count. *)

Module Toy.

Record Server : Type := {
  reachable : bool;
  next_handle : nat;
  open_handles : list nat;
  users_rows : nat;
}.

Definition createConnection (options : ConnectionOptions) (sv : Server)
  : Server * Result Handle :=
  if reachable sv then
    ({| reachable := true; next_handle := S (next_handle sv);
        open_handles := next_handle sv :: open_handles sv;
        users_rows := users_rows sv |}, Ok (next_handle sv))
  else (sv, Throw (JsError "connect ECONNREFUSED 127.0.0.1:3306")).

Definition execute (h : Handle) (sql : string) (params : list (option value))
    (sv : Server) : Server * Result ExecResult :=
  if existsb (Nat.eqb h) (open_handles sv) then
    if isWriteQuery sql then
      ({| reachable := reachable sv; next_handle := next_handle sv;
          open_handles := open_handles sv; users_rows := S (users_rows sv) |},
       Ok (Header 1))
    else (sv, Ok (Rows [ {[ "c" := VNumber (Num (Z.of_nat (users_rows sv))) ]} ]))
  else (sv, Throw (JsError "Can't add new command when connection is in closed state")).

Definition end_ (h : Handle) (sv : Server) : Server :=
  {| reachable := reachable sv; next_handle := next_handle sv;
     open_handles := List.filter (fun x => negb (Nat.eqb h x)) (open_handles sv);
     users_rows := users_rows sv |}.

Definition run (agent : Agent) (message : option string) (maxTurns : number)
    (st : option Handle * Server) : (option Handle * Server) * Result (option string) :=
  (st, Ok (Some "done")).

Definition elapse (clock : N) (sv : Server) : N := 250000%N.

Definition driver : Driver Server :=
  Build_Driver Server createConnection execute end_ run elapse.

(** A fresh process: no handle, no overrides, an empty environment, and
    ten rows in [users]. *)
Definition world (up : bool) (env : gmap string string) : World Server :=
  {| _db := None; _config := emptyConfig; env := env; clock := 0%N;
     server := {| reachable := up; next_handle := 0; open_handles := [];
                  users_rows := 10 |};
     trace := [] |}.


End Toy.

(** ** Agent tools

    The [execute] functions of the five tools, on arguments the schema of
    the tool has parsed (defaults applied). *)

(** What a tool hands to [JSON.stringify]: the result of the executor
    ([{ status: "connected", ...info }] for the connection test), or
    [{ status: "error", message }], with [table] for [get_schema]. *)
Inductive ToolPayload : Type :=
  | PConnected (info : ConnectionInfo)
  | PTables (tables : ExecResult)
  | PSchema (schema : TableSchema)
  | PSchemas (schemas : list TableSchema)
  | PQuery (result : QueryResult)
  | PError (message : string) (table : option string).

Section Tools.

Context {Server : Type} (drv : Driver Server).

(** [JSON.stringify(value, null, 2)], of the runtime; on the values of the
    model (null, numbers, strings, arrays and objects of them) it returns
    a text. *)
Variable JSON_stringify : ToolPayload -> string.

Definition testConnectionTool : M Server string :=
  try_catch
    (info ← testConnectionImpl drv;
     mret (JSON_stringify (PConnected info)))
    (fun error => mret (JSON_stringify (PError (errorText error) None))).

Definition listTablesTool (include_row_counts : bool) : M Server string :=
  try_catch
    (tables ← listTablesImpl drv (Some include_row_counts);
     mret (JSON_stringify (PTables tables)))
    (fun error => mret (JSON_stringify (PError (errorText error) None))).

Definition getSchemaTool (table_name : string) : M Server string :=
  try_catch
    (schema ← getSchemaImpl drv (Some (VString table_name));
     mret (JSON_stringify (PSchema schema)))
    (fun error => mret (JSON_stringify (PError (errorText error) (Some table_name)))).

Definition getAllSchemasTool : M Server string :=
  try_catch
    (schemas ← getAllSchemasImpl drv;
     mret (JSON_stringify (PSchemas schemas)))
    (fun error => mret (JSON_stringify (PError (errorText error) None))).

Definition runQueryTool (sql : string) (allow_write : bool) : M Server string :=
  try_catch
    (result ← runQueryImpl drv (Some sql) (Some allow_write);
     mret (JSON_stringify (PQuery result)))
    (fun error => mret (JSON_stringify (PError (errorText error) None))).

(** What a tool answers in a world [w], given what its executor does there:
    the text of the result [P x], or of the error payload. *)
Definition toolReply {A} (impl : M Server A) (P : A -> ToolPayload)
    (tb : option string) (w : World Server) : World Server * Result string :=
  (fst (impl w),
   Ok (JSON_stringify match snd (impl w) with
                      | Ok x => P x
                      | Throw e => PError (errorText e) tb
                      end)).

End Tools.

(** ** Vocabulary of the further properties *)

(** The calls that open or end a connection. *)
Definition isConnectionEvent (e : Event) : bool :=
  match e with
  | EvConnect _ | EvEnd _ => true
  | _ => false
  end.

(** A computation leaves the configuration and the environment as they
    are, and only adds to the trace. *)
Definition frame {Server A} (m : M Server A) : Prop :=
  forall w,
    _config (fst (m w)) = _config w /\ env (fst (m w)) = env w
    /\ exists ev, trace (fst (m w)) = (trace w ++ ev)%list.

(** With a handle memoized, a computation keeps it, and neither opens nor
    ends a connection. *)
Definition keeps_handle {Server A} (m : M Server A) : Prop :=
  forall w h,
    _db w = Some h ->
    _db (fst (m w)) = Some h
    /\ exists ev, trace (fst (m w)) = (trace w ++ ev)%list
                  /\ forallb (fun e => negb (isConnectionEvent e)) ev = true.


(** The six tags of [MySQLAgentTasks]. *)
Definition TASKS : list string :=
  [TEST_CONNECTION; LIST_TABLES; GET_SCHEMA; GET_ALL_SCHEMAS; QUERY; CHAT].

(** ** A driver with a catalog

    The small driver, answering the catalog statements of the executors:
    the base tables [orders] and [users], a view [active_users], and the
    server's identity. *)

Module Catalog.

Definition tableRow (name type : string) : Row :=
  {[ "table_name" := VString name; "table_type" := VString type ]}.

Definition execute (h : Handle) (sql : string) (params : list (option value))
    (sv : Toy.Server) : Toy.Server * Result ExecResult :=
  if negb (existsb (Nat.eqb h) (Toy.open_handles sv)) then Toy.execute h sql params sv
  else if String.eqb sql SQL_LIST_TABLES then
    (sv, Ok (Rows [tableRow "active_users" "VIEW"; tableRow "users" "BASE TABLE"]))
  else if String.eqb sql SQL_BASE_TABLES then
    (sv, Ok (Rows [ {[ "name" := VString "orders" ]}; {[ "name" := VString "users" ]} ]))
  else if String.eqb sql (SQL_COUNT "users") then
    (sv, Ok (Rows [ {[ "count" := VNumber (Num (Z.of_nat (Toy.users_rows sv))) ]} ]))
  else if String.eqb sql SQL_TEST_CONNECTION then
    (sv, Ok (Rows [ {[ "version" := VString "8.0.36"; "db_name" := VString "testdb";
                       "db_user" := VString "root@localhost" ]} ]))
  else Toy.execute h sql params sv.

Definition driver : Driver Toy.Server :=
  Build_Driver Toy.Server Toy.createConnection execute Toy.end_ Toy.run Toy.elapse.

(** A process that holds a handle, with the environment given. *)
Definition connected (env : gmap string string) : World Toy.Server :=
  fst (getConnection driver (Toy.world true env)).

(** A stand-in for [JSON.stringify]: the message of an error, the kind of
    anything else. *)
Definition stringify (p : ToolPayload) : string :=
  match p with
  | PConnected _ => "connected"
  | PTables _ => "tables"
  | PSchema _ => "schema"
  | PSchemas _ => "schemas"
  | PQuery _ => "query"
  | PError message _ => message
  end.

End Catalog.

(* ================================================================== *)
(** * Properties *)

Example isWriteQuery_insert : isWriteQuery "  insert into t values (1)" = true.
Proof. reflexivity. Qed.

Example isWriteQuery_select : isWriteQuery "SELECT * FROM t" = false.
Proof. reflexivity. Qed.

Example enforceLimit_select :
  enforceLimit " select * from t " (Num 1000) = "select * from t LIMIT 1000".
Proof. reflexivity. Qed.

Example enforceLimit_limited :
  enforceLimit "select * from t limit 5" (Num 1000) = "select * from t limit 5".
Proof. reflexivity. Qed.

Example parseInt_rounds :
  parseInt "9007199254740993" = Num 9007199254740992
  /\ parseInt "9007199254740995" = Num 9007199254740996
  /\ parseInt "-9007199254740993" = Num (-9007199254740992)
  /\ parseInt "9007199254740991" = Num 9007199254740991.
Proof. repeat split; vm_compute; reflexivity. Qed.

Example parseInt_examples :
  parseInt "3306" = Num 3306 /\ parseInt " 12abc" = Num 12 /\
  parseInt "abc" = NaN /\ parseInt "-7" = Num (-7) /\ parseInt "" = NaN.
Proof. repeat split. Qed.

(** ** Strings *)

Section StringFacts.

Lemma isWhiteSpace_upperChar c : isWhiteSpace c = true -> upperChar c = c.
Proof.
  destruct c as [[] [] [] [] [] [] [] []]; vm_compute; congruence.
Qed.

Lemma toUpperCase_app s t :
  toUpperCase (s +:+ t) = toUpperCase s +:+ toUpperCase t.
Proof.
  induction s as [|c s IH]; simpl; [reflexivity | now rewrite IH].
Qed.

Lemma append_assoc (a b c : string) : (a +:+ b) +:+ c = a +:+ b +:+ c.
Proof.
  induction a as [|x a IH]; simpl; [reflexivity | now f_equal].
Qed.

Lemma startsWith_iff s p : startsWith s p = true <-> exists r, s = p +:+ r.
Proof.
  revert s; induction p as [|a p IH]; intros s; simpl.
  - split; [intros _; now exists s | reflexivity].
  - destruct s as [|b s].
    + split; [discriminate | intros [r Hr]; discriminate].
    + rewrite andb_true_iff, IH. split.
      * intros [Hab [r ->]]. apply Ascii.eqb_eq in Hab as ->. now exists r.
      * intros [r Hr]. injection Hr as -> ->. split; [apply Ascii.eqb_refl | now exists r].
Qed.

Lemma includes_iff s p : includes s p = true <-> contains p s.
Proof.
  unfold contains. induction s as [|c s IH].
  - simpl. rewrite orb_false_r, startsWith_iff. split.
    + intros [r Hr]. now exists "", r.
    + intros [a [b Hab]]. destruct a; [now exists b | discriminate].
  - cbn [includes]. rewrite orb_true_iff, startsWith_iff, IH. split.
    + intros [[r Hr] | [a [b Hab]]].
      * now exists "", r.
      * exists (String c a), b. simpl. now rewrite Hab.
    + intros [[|x a] [b Hab]].
      * left. now exists b.
      * right. injection Hab as -> Hs. now exists a, b.
Qed.

(** The case-insensitive literal match is "begins with, ignoring case". *)
Lemma matchLiteral_i_iff kw s : matchLiteral_i kw s = true <-> begins_with_ci kw s.
Proof.
  unfold begins_with_ci. revert s; induction kw as [|a kw IH]; intros s; simpl.
  - split; [intros _; now exists "", s | reflexivity].
  - destruct s as [|b s].
    + split; [discriminate |].
      intros [[|x p] [r [Hs Hp]]]; discriminate.
    + rewrite andb_true_iff, IH, Ascii.eqb_eq. unfold canonicalize. split.
      * intros [Hab [p [r [-> Hp]]]]. exists (String b p), r. simpl.
        now rewrite Hp, Hab.
      * intros [[|x p] [r [Hs Hp]]]; [discriminate |].
        injection Hs as -> ->. injection Hp as Hx Hp.
        split; [congruence | now exists p, r].
Qed.

(** On an upper-case needle, testing the upper-cased text is the
    case-insensitive match. *)
Lemma startsWith_toUpperCase kw s :
  toUpperCase kw = kw -> startsWith (toUpperCase s) kw = matchLiteral_i kw s.
Proof.
  revert s; induction kw as [|a kw IH]; intros s Hk; simpl; [reflexivity |].
  injection Hk as Ha Hk. destruct s as [|b s]; simpl; [reflexivity |].
  unfold canonicalize. now rewrite Ha, IH.
Qed.

(** Trailing white space cannot decide a match of a needle without any. *)
Lemma matchLiteral_i_trimEnd kw t :
  noWhiteSpace kw = true -> matchLiteral_i kw (trimEnd t) = matchLiteral_i kw t.
Proof.
  revert kw; induction t as [|c t IH]; intros kw Hkw; [reflexivity |].
  destruct kw as [|k kw]; [reflexivity |].
  simpl in Hkw. apply andb_true_iff in Hkw as [Hk Hkw].
  specialize (IH kw Hkw). cbn [trimEnd].
  destruct (trimEnd t) as [|c' t'] eqn:Ht.
  - destruct (isWhiteSpace c) eqn:Hc.
    + cbn [matchLiteral_i]. unfold canonicalize in *.
      rewrite (isWhiteSpace_upperChar c Hc).
      destruct (Ascii.eqb_spec (upperChar k) c) as [Heq|Hne]; [|reflexivity].
      rewrite Heq, Hc in Hk. discriminate.
    + cbn [matchLiteral_i]. now rewrite <- IH.
  - cbn [matchLiteral_i]. cbn [matchLiteral_i] in IH. now rewrite <- IH.
Qed.

(** Two needles that both match the start of one text agree on their
    common length. *)
Lemma matchLiteral_i_agree k1 k2 s :
  matchLiteral_i k1 s = true -> matchLiteral_i k2 s = true -> agree k1 k2 = true.
Proof.
  revert k2 s; induction k1 as [|a k1 IH]; intros k2 s H1 H2; [reflexivity |].
  destruct k2 as [|b k2]; [reflexivity |].
  destruct s as [|c s]; [discriminate |].
  simpl in *. apply andb_true_iff in H1 as [Ha H1], H2 as [Hb H2].
  apply Ascii.eqb_eq in Ha, Hb. rewrite Ha, Hb, Ascii.eqb_refl. simpl. eauto.
Qed.

End StringFacts.

(** ** The write classifier *)

Lemma WRITE_KEYWORDS_noWhiteSpace kw : In kw WRITE_KEYWORDS -> noWhiteSpace kw = true.
Proof.
  unfold WRITE_KEYWORDS. simpl. intros H.
  repeat (destruct H as [<-|H]; [reflexivity |]). destruct H.
Qed.

Lemma WRITE_PATTERNS_test_trimEnd t :
  WRITE_PATTERNS_test (trimEnd t) = WRITE_PATTERNS_test t.
Proof.
  unfold WRITE_PATTERNS_test, WRITE_KEYWORDS. cbn [existsb].
  now rewrite !matchLiteral_i_trimEnd by reflexivity.
Qed.

Lemma isWriteQuery_iff_spec sql : isWriteQuery sql = true <-> isWriteIntent_spec sql.
Proof.
  unfold isWriteQuery, isWriteIntent_spec, trim.
  rewrite WRITE_PATTERNS_test_trimEnd. unfold WRITE_PATTERNS_test.
  rewrite existsb_exists. split.
  - intros [kw [Hin Hm]]. exists kw. split; [exact Hin | now apply matchLiteral_i_iff].
  - intros [kw [Hin Hm]]. exists kw. split; [exact Hin | now apply matchLiteral_i_iff].
Qed.

Lemma read_keyword_not_write kw sql :
  In kw READ_KEYWORDS -> begins_with_ci kw (trimStart sql) -> isWriteQuery sql = false.
Proof.
  intros Hin Hb. apply not_true_is_false. intros Hw.
  apply isWriteQuery_iff_spec in Hw as [kw' [Hin' Hb']].
  apply matchLiteral_i_iff in Hb, Hb'.
  pose proof (matchLiteral_i_agree _ _ _ Hb Hb') as Hag.
  unfold READ_KEYWORDS, WRITE_KEYWORDS in *. simpl in Hin, Hin'.
  repeat (destruct Hin as [<-|Hin]; [
    repeat (destruct Hin' as [<-|Hin']; [discriminate Hag |]); destruct Hin' |]).
  destruct Hin.
Qed.

(** C2. For every SQL string, the classifier answers true exactly when the
    string, once its leading white space is trimmed, begins (ignoring case)
    with one of INSERT, UPDATE, DELETE, DROP, CREATE, ALTER, TRUNCATE,
    REPLACE; it answers false on every string that so begins with SELECT,
    SHOW or DESCRIBE. *)
Theorem isWriteQuery_correct (sql : string) :
  (isWriteQuery sql = true <->
     begins_with_ci "INSERT" (trimStart sql)
     \/ begins_with_ci "UPDATE" (trimStart sql)
     \/ begins_with_ci "DELETE" (trimStart sql)
     \/ begins_with_ci "DROP" (trimStart sql)
     \/ begins_with_ci "CREATE" (trimStart sql)
     \/ begins_with_ci "ALTER" (trimStart sql)
     \/ begins_with_ci "TRUNCATE" (trimStart sql)
     \/ begins_with_ci "REPLACE" (trimStart sql))
  /\ (begins_with_ci "SELECT" (trimStart sql)
      \/ begins_with_ci "SHOW" (trimStart sql)
      \/ begins_with_ci "DESCRIBE" (trimStart sql) ->
      isWriteQuery sql = false).
Proof.
  split.
  - rewrite isWriteQuery_iff_spec. split.
    + intros (kw & Hin & Hb). cbn in Hin.
      repeat (destruct Hin as [<- | Hin]; [tauto |]). destruct Hin.
    + intros H. unfold isWriteIntent_spec.
      repeat (destruct H as [H | H]; [eexists; split; [| exact H]; cbn; tauto |]).
      eexists; split; [| exact H]; cbn; tauto.
  - intros [H | [H | H]]; eapply read_keyword_not_write; try exact H; cbn; tauto.
Qed.

(** ** The row limiter *)

Lemma enforceLimit_select_test sql :
  startsWith (toUpperCase (trim sql)) "SELECT" = true <->
  begins_with_ci "SELECT" (trim sql).
Proof.
  rewrite startsWith_toUpperCase by reflexivity. apply matchLiteral_i_iff.
Qed.

Lemma trimStart_suffix s : exists a, s = a +:+ trimStart s.
Proof.
  induction s as [|c s [a IH]]; [now exists "" |]. simpl.
  destruct (isWhiteSpace c); [| now exists ""].
  exists (String c a). simpl. now rewrite <- IH.
Qed.

Lemma trimEnd_prefix s : exists b, s = trimEnd s +:+ b.
Proof.
  induction s as [|c s [b IH]]; [now exists "" |]. cbn [trimEnd].
  destruct (trimEnd s) as [|x y].
  - destruct (isWhiteSpace c); [now exists (String c s) | now exists s].
  - exists b. simpl in *. now rewrite <- IH.
Qed.

(** What the trimmed text contains, the text contains. *)
Lemma contains_trim needle s :
  contains needle (toUpperCase (trim s)) -> contains needle (toUpperCase s).
Proof.
  intros [x [y Hxy]]. unfold trim in Hxy.
  destruct (trimStart_suffix s) as [a Ha].
  destruct (trimEnd_prefix (trimStart s)) as [b Hb].
  exists (toUpperCase a +:+ x), (y +:+ toUpperCase b).
  rewrite Ha, Hb, !toUpperCase_app, Hxy, !append_assoc. reflexivity.
Qed.

(** C3, as the code has it.  For every SQL string that, trimmed and ignoring
    case, begins with SELECT and whose upper-cased form does not contain
    " LIMIT ", the limiter returns the trimmed string followed by
    " LIMIT N", hence a string ending in " LIMIT N" (whether the form
    searched is that of the string or of the trimmed string).  A string that
    does not begin with SELECT is returned as it is.  A SELECT is returned
    as it is when " LIMIT " occurs in the upper-cased form of the trimmed
    string, which is the one the limiter searches; a " LIMIT " that the
    trimming cuts is not seen. *)
Theorem enforceLimit_correct (sql : string) (N : number) :
  (begins_with_ci "SELECT" (trim sql) ->
   ~ contains " LIMIT " (toUpperCase (trim sql)) ->
     enforceLimit sql N = trim sql +:+ " LIMIT " +:+ Number_toString N
     /\ ends_in (" LIMIT " +:+ Number_toString N) (enforceLimit sql N))
  /\ (begins_with_ci "SELECT" (trim sql) ->
      ~ contains " LIMIT " (toUpperCase sql) ->
        ends_in (" LIMIT " +:+ Number_toString N) (enforceLimit sql N))
  /\ (begins_with_ci "SELECT" (trim sql) ->
      contains " LIMIT " (toUpperCase (trim sql)) ->
        enforceLimit sql N = sql)
  /\ (~ begins_with_ci "SELECT" (trim sql) -> enforceLimit sql N = sql).
Proof.
  assert (Happend : begins_with_ci "SELECT" (trim sql) ->
                    ~ contains " LIMIT " (toUpperCase (trim sql)) ->
                    enforceLimit sql N = trim sql +:+ " LIMIT " +:+ Number_toString N).
  { intros Hb Hc. unfold enforceLimit. cbv zeta.
    apply enforceLimit_select_test in Hb. rewrite Hb.
    destruct (includes (toUpperCase (trim sql)) " LIMIT ") eqn:Hlim; [| reflexivity].
    exfalso. apply Hc. now apply includes_iff. }
  split; [| split; [| split]].
  - intros Hb Hc. split; [now apply Happend |].
    rewrite (Happend Hb Hc). now exists (trim sql).
  - intros Hb Hc. rewrite (Happend Hb).
    + now exists (trim sql).
    + intros Hin. apply Hc. now apply contains_trim.
  - intros Hb Hc. unfold enforceLimit. cbv zeta.
    apply includes_iff in Hc. rewrite Hc. now rewrite andb_false_r.
  - intros Hb. unfold enforceLimit. cbv zeta.
    destruct (startsWith (toUpperCase (trim sql)) "SELECT") eqn:Hsel; [|reflexivity].
    exfalso. apply Hb. now apply enforceLimit_select_test.
Qed.

(** C3 as stated fails: a SELECT that contains " LIMIT " only up to its
    trailing white space is not returned unchanged; the limiter trims
    before it searches, and appends a second LIMIT. *)
Lemma enforceLimit_counterexample :
  begins_with_ci "SELECT" (trim "SELECT 1 LIMIT ")
  /\ contains " LIMIT " (toUpperCase "SELECT 1 LIMIT ")
  /\ enforceLimit "SELECT 1 LIMIT " (Num 100) = "SELECT 1 LIMIT LIMIT 100"
  /\ enforceLimit "SELECT 1 LIMIT " (Num 100) <> "SELECT 1 LIMIT ".
Proof.
  split; [apply matchLiteral_i_iff; reflexivity |].
  split; [apply includes_iff; reflexivity |].
  split; [reflexivity | discriminate].
Qed.


(** ** Running the monad *)

Ltac munfold :=
  unfold member, try_catch in *;
  unfold mbind, M_bind, mret, M_ret, fmap, M_fmap, throw,
    get_db, set_db, get_config, set_config, Bun_env in *.

Section ConnectionManager.

Context {Server : Type} (drv : Driver Server).

Lemma run_bind {A B} (m : M Server A) (f : A -> M Server B) (w : World Server) :
  (m ≫= f) w = match m w with
               | (w', Ok a) => f a w'
               | (w', Throw e) => (w', Throw e)
               end.
Proof. reflexivity. Qed.

Lemma closeConnection_closed (w : World Server) :
  _db w = None -> closeConnection drv w = (w, Ok tt).
Proof.
  intros H. unfold closeConnection. munfold. now rewrite H.
Qed.

Lemma closeConnection_db (w : World Server) :
  _db (fst (closeConnection drv w)) = None.
Proof.
  unfold closeConnection, db_end. munfold.
  destruct (_db w) eqn:H; cbn; [reflexivity | exact H].
Qed.

Lemma closeConnection_ok (w : World Server) :
  snd (closeConnection drv w) = Ok tt.
Proof.
  unfold closeConnection, db_end. munfold. destruct (_db w); reflexivity.
Qed.

(** C9. Closing is idempotent: with no handle open it changes nothing, and
    from every state closing twice in a row ends in the state that closing
    once ends in, which holds no handle. *)
Theorem closeConnection_idempotent (w : World Server) :
  (_db w = None -> closeConnection drv w = (w, Ok tt))
  /\ (closeConnection drv;; closeConnection drv) w = closeConnection drv w
  /\ _db (fst (closeConnection drv w)) = None.
Proof.
  split; [apply closeConnection_closed |].
  split; [| apply closeConnection_db].
  pose proof (closeConnection_db w) as Hdb.
  pose proof (closeConnection_ok w) as Hok.
  rewrite run_bind.
  destruct (closeConnection drv w) as [w1 r]. cbn in Hdb, Hok. subst r.
  now apply closeConnection_closed.
Qed.

Lemma getConnection_fresh (w : World Server) :
  _db w = None ->
  getConnection drv w =
    (let options := connectionOptionsOf (resolveConfig (_config w) (env w)) in
     let '(sv, r) := createConnection drv options (server w) in
     match r with
     | Ok h => (fst (set_db (Some h) (outside drv (EvConnect options) sv w)), Ok h)
     | Throw e => (outside drv (EvConnect options) sv w, Throw e)
     end).
Proof.
  intros H. unfold getConnection, getConnectionConfig, getConfig, mysql_createConnection.
  munfold. rewrite H. cbv zeta.
  destruct (createConnection drv _ (server w)) as [sv [h|e]]; reflexivity.
Qed.

Lemma getConnection_memo (w : World Server) (h : Handle) :
  _db w = Some h -> getConnection drv w = (w, Ok h).
Proof.
  intros H. unfold getConnection. munfold. now rewrite H.
Qed.


End ConnectionManager.

(** ** Configuration resolver *)

Section Resolver.

Context {Server : Type}.






End Resolver.



(** ** The clock over the program *)

Section Clock.

Context {Server : Type} (drv : Driver Server).

Lemma mono_ret {A} (a : A) : clock_mono (mret a : M Server A).
Proof. intros w. cbn. lia. Qed.

Lemma mono_throw {A} (e : exn) : clock_mono (throw e : M Server A).
Proof. intros w. cbn. lia. Qed.

Lemma mono_bind {A B} (m : M Server A) (f : A -> M Server B) :
  clock_mono m -> (forall a, clock_mono (f a)) -> clock_mono (m ≫= f).
Proof.
  intros Hm Hf w. rewrite run_bind. specialize (Hm w).
  destruct (m w) as [w1 [a|e]]; cbn in *; [|exact Hm].
  specialize (Hf a w1). lia.
Qed.

Lemma mono_fmap {A B} (g : A -> B) (m : M Server A) :
  clock_mono m -> clock_mono (g <$> m).
Proof.
  intros Hm w. specialize (Hm w). munfold.
  destruct (m w) as [w1 [a|e]]; exact Hm.
Qed.

Lemma mono_try_catch {A} (m : M Server A) (h : exn -> M Server A) :
  clock_mono m -> (forall e, clock_mono (h e)) -> clock_mono (try_catch m h).
Proof.
  intros Hm Hh w. specialize (Hm w). unfold try_catch.
  destruct (m w) as [w1 [a|e]]; cbn in *; [exact Hm|].
  specialize (Hh e w1). lia.
Qed.

Lemma mono_member {A B} (expr : string) (o : option A) (f : A -> B) :
  clock_mono (member expr o f : M Server B).
Proof. destruct o; [apply mono_ret | apply mono_throw]. Qed.

Lemma mono_promise_all {A} (ps : list (M Server A)) :
  Forall clock_mono ps -> clock_mono (promise_all ps).
Proof.
  induction 1 as [|p ps Hp _ IH]; [apply mono_ret |].
  intros w. cbn [promise_all]. specialize (Hp w).
  destruct (p w) as [w1 r]. specialize (IH w1).
  destruct (promise_all ps w1) as [w2 rs]. cbn in *. lia.
Qed.

Lemma mono_settle {A} (m : M Server A) : clock_mono m -> clock_mono (settle m).
Proof. intros Hm w. specialize (Hm w). unfold settle. now destruct (m w). Qed.

Lemma mono_turn {X Y} (step : X -> M Server Y) (calls : list (Result X))
    (rejection : option exn) :
  (forall x, clock_mono (step x)) -> clock_mono (turn step calls rejection).
Proof.
  intros Hs. revert rejection.
  induction calls as [|[x|e] calls IH]; intros rejection; cbn [turn].
  - apply mono_ret.
  - apply mono_bind; [apply mono_settle, Hs | intros r].
    apply mono_bind; [apply IH | intros p; apply mono_ret].
  - apply mono_bind; [apply IH | intros p; apply mono_ret].
Qed.

Lemma mono_map {A B} (f : A -> M Server B) (l : list A) :
  (forall a, clock_mono (f a)) -> Forall clock_mono (map f l).
Proof.
  intros Hf. induction l as [|a l IH]; constructor; [apply Hf | exact IH].
Qed.

Lemma mono_outside (ev : Event) (sv : Server) (w : World Server) :
  (clock w <= clock (outside drv ev sv w))%N.
Proof. cbn. lia. Qed.

Lemma mono_tick (w : World Server) : (clock w <= clock (tick drv w))%N.
Proof. cbn. lia. Qed.

Lemma mono_performance_now : clock_mono (performance_now drv).
Proof. intros w. apply mono_tick. Qed.

Lemma mono_createConnection o : clock_mono (mysql_createConnection drv o).
Proof.
  intros w. unfold mysql_createConnection.
  destruct (createConnection drv o (server w)). apply mono_outside.
Qed.

Lemma mono_execute h q ps : clock_mono (db_execute drv h q ps).
Proof.
  intros w. unfold db_execute.
  destruct (execute drv h q ps (server w)). apply mono_outside.
Qed.

Lemma mono_end h : clock_mono (db_end drv h).
Proof. intros w. apply mono_outside. Qed.

Lemma mono_run a m t : clock_mono (run_agent drv a m t).
Proof.
  intros w. unfold run_agent.
  destruct (run drv a m t (_db w, server w)) as [[db sv] r]. apply mono_outside.
Qed.

Lemma mono_get_db : clock_mono (get_db : M Server _).
Proof. intros w. cbn. lia. Qed.

Lemma mono_set_db db : clock_mono (set_db db : M Server _).
Proof. intros w. cbn. lia. Qed.

Lemma mono_get_config : clock_mono (get_config : M Server _).
Proof. intros w. cbn. lia. Qed.

Lemma mono_set_config c : clock_mono (set_config c : M Server _).
Proof. intros w. cbn. lia. Qed.

Lemma mono_Bun_env : clock_mono (Bun_env : M Server _).
Proof. intros w. cbn. lia. Qed.

End Clock.

Create HintDb mono.

#[local] Hint Resolve mono_ret mono_throw mono_fmap mono_try_catch mono_member
  mono_performance_now mono_createConnection mono_execute mono_end mono_run
  mono_get_db mono_set_db mono_get_config mono_set_config mono_Bun_env : mono.

(** Walks a computation by its binds and its case distinctions. *)
Ltac mono :=
  cbv zeta;
  repeat first
    [ solve [eauto with mono]
    | apply mono_bind; [| intros ?]
    | apply mono_fmap
    | match goal with
      | |- clock_mono (match ?x with _ => _ end) => destruct x
      end ].

Section ClockProgram.

Context {Server : Type} (drv : Driver Server).

Lemma mono_getConfig : clock_mono (getConfig : M Server _).
Proof. unfold getConfig. mono. Qed.

Lemma mono_getConnection : clock_mono (getConnection drv).
Proof. unfold getConnection, getConnectionConfig, getConfig. mono. Qed.

Lemma mono_closeConnection : clock_mono (closeConnection drv).
Proof. unfold closeConnection. mono. Qed.

Lemma mono_configureAgent c : clock_mono (configureAgent drv c).
Proof. unfold configureAgent. mono. Qed.

Hint Resolve mono_getConfig mono_getConnection mono_configureAgent : mono.

Lemma mono_testConnectionImpl : clock_mono (testConnectionImpl drv).
Proof. unfold testConnectionImpl. mono. Qed.

Lemma mono_withExactRowCount h t : clock_mono (withExactRowCount drv h t).
Proof. unfold withExactRowCount. mono. Qed.

Lemma mono_listTablesImpl b : clock_mono (listTablesImpl drv b).
Proof.
  unfold listTablesImpl. mono.
  apply mono_promise_all, mono_map, mono_withExactRowCount.
Qed.

Lemma mono_getSchemaImpl t : clock_mono (getSchemaImpl drv t).
Proof. unfold getSchemaImpl. mono. Qed.

Lemma mono_getAllSchemasImpl : clock_mono (getAllSchemasImpl drv).
Proof.
  unfold getAllSchemasImpl, getSchemaImpl_all. mono.
  all: apply mono_turn; intros x; repeat destruct x as [x ?]; mono.
Qed.

Lemma mono_runQueryImpl q a : clock_mono (runQueryImpl drv q a).
Proof. unfold runQueryImpl. mono. Qed.

Lemma mono_createAgent : clock_mono (createAgent : M Server _).
Proof. unfold createAgent. mono. Qed.

Hint Resolve mono_testConnectionImpl mono_listTablesImpl mono_getSchemaImpl
  mono_getAllSchemasImpl mono_runQueryImpl mono_createAgent : mono.

Lemma mono_dispatch t : clock_mono (dispatch drv t).
Proof. unfold dispatch. mono. Qed.

End ClockProgram.

(** ** Task dispatcher *)

Section Dispatcher.

Context {Server : Type} (drv : Driver Server).

Lemma Math_round_nonneg (x : Q) : (0 <= x)%Q -> (0 <= Math_round x)%Z.
Proof.
  intros Hx. unfold Math_round.
  change 0%Z with (Qfloor 0). apply Qfloor_resp_le.
  rewrite <- (Qplus_0_r 0). apply Qplus_le_compat; [exact Hx | discriminate].
Qed.

Lemma round2_nonneg (x : Q) : (0 <= x)%Q -> (0 <= round2 x)%Q.
Proof.
  intros Hx. unfold round2.
  assert (H : (0 <= Math_round (x * 100))%Z).
  { apply Math_round_nonneg. apply Qmult_le_0_compat; [exact Hx | discriminate]. }
  apply Qle_shift_div_l; [reflexivity |].
  rewrite Qmult_0_l. unfold Qle. simpl. lia.
Qed.

Lemma now_ms_le (a b : N) : (a <= b)%N -> (0 <= now_ms b - now_ms a)%Q.
Proof.
  intros H.
  unfold now_ms, Qle, Qminus, Qplus, Qopp, Qdiv, Qmult, Qinv, inject_Z. simpl. lia.
Qed.

Lemma configureAgent_ok (c : MySQLAgentConfig) (w : World Server) :
  snd (configureAgent drv c w) = Ok tt.
Proof.
  unfold configureAgent, db_end. munfold. destruct (_db w); reflexivity.
Qed.

(** The envelope, by the outcome of the [switch]. *)
Lemma executeMySQLTask_envelope
    (taskInput : option TaskParams) (config : option MySQLAgentConfig)
    (w : World Server) :
  exists w' r d,
    executeMySQLTask drv taskInput config w = (w', Ok r)
    /\ duration_ms r = Some d /\ (0 <= d)%Q
    /\ match dispatch drv taskInput (entering drv config w) with
       | (_, Ok x) => success r = true /\ data r = Some x /\ error r = None
       | (_, Throw e) =>
           success r = false /\ error r = Some (errorText e) /\ data r = None
       end.
Proof.
  unfold executeMySQLTask, entering. rewrite run_bind.
  set (pre := match config with Some c => configureAgent drv c | None => mret tt end).
  assert (Hpre : snd (pre w) = Ok tt).
  { subst pre. destruct config; [apply configureAgent_ok | reflexivity]. }
  destruct (pre w) as [w1 r1]. cbn in Hpre. subst r1. cbn [fst].
  rewrite run_bind. unfold performance_now at 1 3. cbn [fst].
  set (w2 := tick drv w1).
  assert (H12 : (clock w1 <= clock w2)%N) by apply mono_tick.
  pose proof (mono_dispatch drv taskInput w2) as H23.
  unfold try_catch. rewrite run_bind.
  destruct (dispatch drv taskInput w2) as [w3 [x|e]] eqn:Hd; cbn [fst] in H23.
  - rewrite run_bind. unfold performance_now. munfold.
    eexists _, _, _. split; [reflexivity |]. cbn.
    split; [reflexivity |]. split; [apply round2_nonneg, now_ms_le; lia |].
    fold w2. rewrite Hd. repeat split.
  - rewrite run_bind. unfold performance_now. munfold.
    eexists _, _, _. split; [reflexivity |]. cbn.
    split; [reflexivity |]. split; [apply round2_nonneg, now_ms_le; lia |].
    fold w2. rewrite Hd. repeat split.
Qed.

Lemma reported_fmap {A} (inj : A -> Data) (m : M Server A) (w0 : World Server)
    (r : AgentResult) :
  match (inj <$> m) w0 with
  | (_, Ok x) => success r = true /\ data r = Some x /\ error r = None
  | (_, Throw e) => success r = false /\ error r = Some (errorText e) /\ data r = None
  end ->
  reported inj (snd (m w0)) r.
Proof.
  assert (Hf : (inj <$> m) w0 = match m w0 with
                                | (w', Ok a) => (w', Ok (inj a))
                                | (w', Throw e) => (w', Throw e)
                                end) by reflexivity.
  rewrite Hf. destruct (m w0) as [w1 [x | [msg | txt]]]; cbn; tauto.
Qed.

Lemma dispatch_tag (t : TaskParams) (w0 : World Server) :
  dispatch drv (Some t) w0 =
  (if bool_decide (task t = Some TEST_CONNECTION) then
     DConnectionInfo <$> testConnectionImpl drv
   else if bool_decide (task t = Some LIST_TABLES) then
     DTables <$> listTablesImpl drv (params t ≫= includeRowCounts)
   else if bool_decide (task t = Some GET_SCHEMA) then
     tableName ← member (B:=option string) "taskInput.params.tableName"
                    (params t) tableName;
     DSchema <$> getSchemaImpl drv (option_map VString tableName)
   else if bool_decide (task t = Some GET_ALL_SCHEMAS) then
     DSchemas <$> getAllSchemasImpl drv
   else if bool_decide (task t = Some QUERY) then
     sql ← member "taskInput.params.sql" (params t) sql;
     allowWrite ← member "taskInput.params.allowWrite" (params t) params_allowWrite;
     DQuery <$> runQueryImpl drv sql allowWrite
   else if bool_decide (task t = Some CHAT) then
     agent ← createAgent;
     message ← member "taskInput.params.message" (params t) message;
     config ← getConfig;
     DFinalOutput <$> run_agent drv agent message (maxTurns config)
   else
     throw (JsError ("Unknown task: " +:+ default "undefined" (task t)))) w0.
Proof. reflexivity. Qed.

(** C4. For every task request, well-formed or not, with or without a
    configuration argument, and whatever the executor does, the dispatcher
    returns an envelope and does not throw.  The envelope has a duration
    that is not negative; it has either success true, data and no error,
    or success false, an error text and no data.  Which one is settled by
    the executor of the task, run after the optional reconfiguration: what
    it returns is the data, and what it throws gives the error, the
    message of an [Error] or the text of any other value.  A request that is
    undefined, a request for a schema, a query or a chat without [params],
    and a request with a tag that is no task are failures.  (The
    reconfiguration runs before the [try] block; the one call it makes
    outside the program is [end], which does not reject.) *)
Theorem executeMySQLTask_never_throws
    (taskInput : option TaskParams) (config : option MySQLAgentConfig)
    (w : World Server) :
  let w0 := entering drv config w in
  exists w' r d,
    executeMySQLTask drv taskInput config w = (w', Ok r)
    /\ duration_ms r = Some d /\ (0 <= d)%Q
    /\ (success r = true /\ (exists x, data r = Some x) /\ error r = None
        \/ success r = false /\ data r = None /\ exists text, error r = Some text)
    /\ match taskInput with
       | None =>
           success r = false
           /\ error r = Some "undefined is not an object (evaluating 'taskInput.task')"
       | Some t =>
           (task t = Some TEST_CONNECTION ->
              reported DConnectionInfo (snd (testConnectionImpl drv w0)) r)
           /\ (task t = Some LIST_TABLES ->
                 reported DTables
                   (snd (listTablesImpl drv (params t ≫= includeRowCounts) w0)) r)
           /\ (task t = Some GET_SCHEMA -> forall p, params t = Some p ->
                 reported DSchema
                   (snd (getSchemaImpl drv (option_map VString (tableName p)) w0)) r)
           /\ (task t = Some GET_ALL_SCHEMAS ->
                 reported DSchemas (snd (getAllSchemasImpl drv w0)) r)
           /\ (task t = Some QUERY -> forall p, params t = Some p ->
                 reported DQuery
                   (snd (runQueryImpl drv (sql p) (params_allowWrite p) w0)) r)
           /\ (task t = Some CHAT -> forall p, params t = Some p ->
                 reported DFinalOutput
                   (snd ((agent ← createAgent;
                          config ← getConfig;
                          run_agent drv agent (message p) (maxTurns config)) w0)) r)
           /\ (params t = None ->
                 task t = Some GET_SCHEMA \/ task t = Some QUERY \/ task t = Some CHAT ->
                 success r = false)
           /\ ((forall tag, In tag TASKS -> task t <> Some tag) ->
                 success r = false
                 /\ error r = Some ("Unknown task: " +:+ default "undefined" (task t)))
       end.
Proof.
  cbv zeta.
  destruct (executeMySQLTask_envelope taskInput config w)
    as (w' & r & d & Hrun & Hd & Hpos & Hout).
  exists w', r, d. split; [exact Hrun |]. split; [exact Hd |]. split; [exact Hpos |].
  split.
  { destruct (dispatch drv taskInput (entering drv config w)) as [w3 [x|e]];
      destruct Hout as (Hs & H1 & H2); [left | right]; eauto. }
  destruct taskInput as [t|].
  2:{ cbn in Hout. destruct Hout as (Hs & He & _). now split. }
  rewrite dispatch_tag in Hout.
  repeat match goal with |- _ /\ _ => split end.
  - intros Ht. rewrite Ht in Hout. now apply reported_fmap.
  - intros Ht. rewrite Ht in Hout. now apply reported_fmap.
  - intros Ht p Hp. rewrite Ht, Hp in Hout. now apply reported_fmap.
  - intros Ht. rewrite Ht in Hout. now apply reported_fmap.
  - intros Ht p Hp. rewrite Ht, Hp in Hout. now apply reported_fmap.
  - intros Ht p Hp. rewrite Ht, Hp in Hout.
    apply (reported_fmap DFinalOutput
             (agent ← createAgent; config ← getConfig;
              run_agent drv agent (message p) (maxTurns config))).
    exact Hout.
  - intros Hp [Ht | [Ht | Ht]]; rewrite Ht, Hp in Hout; apply Hout.
  - intros Hun.
    assert (Hn : forall tag, In tag TASKS -> bool_decide (task t = Some tag) = false)
      by (intros tag Hin; apply bool_decide_eq_false_2, Hun, Hin).
    rewrite !Hn in Hout by (cbn; tauto). destruct Hout as (Hs & He & _). now split.
Qed.


(** C10. The convenience wrapper is the dispatcher on the query task: for
    every SQL text and caller flag, [executeQuery(sql, { allowWrite })]
    returns the envelope of [executeMySQLTask] on the QUERY request with
    that text and flag, and leaves the same state; so it does with a
    configuration among the options, and with no options at all. *)
Theorem executeQuery_is_query_task
    (sql : option string) (allowWrite : option bool)
    (config : option MySQLAgentConfig) (w : World Server) :
  executeQuery drv sql
    (Some {| options_allowWrite := allowWrite; options_config := None |}) w
  = executeMySQLTask drv (Some (queryTask sql allowWrite)) None w
  /\ executeQuery drv sql
       (Some {| options_allowWrite := allowWrite; options_config := config |}) w
     = executeMySQLTask drv (Some (queryTask sql allowWrite)) config w
  /\ executeQuery drv sql None w
     = executeMySQLTask drv (Some (queryTask sql None)) None w.
Proof.
  split; [reflexivity |]. split; [| reflexivity].
  unfold executeQuery. cbn [mbind option_bind options_config options_allowWrite].
  destruct config as [c|]; [| reflexivity].
  unfold executeMySQLTask. rewrite !run_bind.
  pose proof (configureAgent_ok c w) as Hok.
  destruct (configureAgent drv c w) as [w1 r]. cbn in Hok. now subst r.
Qed.

(** *** Symbolic runs *)

Lemma executeMySQLTask_run (taskInput : option TaskParams) (w : World Server) :
  executeMySQLTask drv taskInput None w =
    match dispatch drv taskInput (tick drv w) with
    | (w3, Ok x) =>
        (tick drv w3,
         Ok {| success := true; data := Some x; error := None;
               duration_ms := Some (round2 (now_ms (clock w3) - now_ms (clock w))) |})
    | (w3, Throw e) =>
        (tick drv w3,
         Ok {| success := false; data := None; error := Some (errorText e);
               duration_ms := Some (round2 (now_ms (clock w3) - now_ms (clock w))) |})
    end.
Proof.
  unfold executeMySQLTask, performance_now. munfold.
  destruct (dispatch drv taskInput (tick drv w)) as [w3 [x|e]]; reflexivity.
Qed.

Lemma dispatch_query (p : Params) (w : World Server) :
  dispatch drv (Some {| task := Some QUERY; params := Some p |}) w =
  (DQuery <$> runQueryImpl drv (sql p) (params_allowWrite p)) w.
Proof. reflexivity. Qed.

Lemma dispatch_queryTask (text : option string) (aw : option bool) (w : World Server) :
  dispatch drv (Some (queryTask text aw)) w = (DQuery <$> runQueryImpl drv text aw) w.
Proof. reflexivity. Qed.

Lemma dispatch_no_params (tag : string) (w : World Server) :
  tag = GET_SCHEMA \/ tag = QUERY \/ tag = CHAT ->
  exists e, dispatch drv (Some {| task := Some tag; params := None |}) w = (w, Throw e).
Proof.
  intros [-> | [-> | ->]]; eexists; reflexivity.
Qed.

(** What [getConnection] does, by the state of the slot. *)
Lemma getConnection_run (w : World Server) :
  getConnection drv w =
    match _db w with
    | Some h => (w, Ok h)
    | None =>
        let '(sv, r) := createConnection drv (connectOptions w) (server w) in
        match r with
        | Ok h => (fst (set_db (Some h) (outside drv (EvConnect (connectOptions w)) sv w)), Ok h)
        | Throw e => (outside drv (EvConnect (connectOptions w)) sv w, Throw e)
        end
    end.
Proof.
  destruct (_db w) as [h|] eqn:H.
  - now apply getConnection_memo.
  - now apply getConnection_fresh.
Qed.

Lemma executed_app (t u : list Event) : executed (t ++ u) = (executed t ++ executed u)%list.
Proof.
  induction t as [|[] t IH]; simpl; [reflexivity | | | |]; now rewrite ?IH.
Qed.

(** [getConnection] executes nothing, writes neither the configuration
    nor the environment, and reaches the server with a connection request
    at most. *)
Lemma getConnection_frame (w : World Server) :
  let w1 := fst (getConnection drv w) in
  executed (trace w1) = executed (trace w)
  /\ _config w1 = _config w /\ env w1 = env w
  /\ trace w1 = (trace w ++ match _db w with
                            | Some _ => []
                            | None => [EvConnect (connectOptions w)]
                            end)%list
  /\ server w1 = match _db w with
                 | Some _ => server w
                 | None => fst (createConnection drv (connectOptions w) (server w))
                 end.
Proof.
  cbv zeta. rewrite getConnection_run.
  destruct (_db w) as [h|]; cbn.
  - now rewrite app_nil_r.
  - destruct (createConnection drv (connectOptions w) (server w)) as [sv [h|e]]; cbn;
      rewrite executed_app; cbn; now rewrite app_nil_r.
Qed.

(** A statement the classifier calls a write is not one the limiter
    touches. *)
Lemma enforceLimit_write (sql : string) (n : number) :
  isWriteQuery sql = true -> enforceLimit sql n = sql.
Proof.
  intros Hw. unfold enforceLimit. cbv zeta.
  rewrite startsWith_toUpperCase by reflexivity.
  destruct (matchLiteral_i "SELECT" (trim sql)) eqn:Hs; [|reflexivity].
  exfalso. unfold isWriteQuery, WRITE_PATTERNS_test in Hw.
  apply existsb_exists in Hw as [kw [Hin Hm]].
  pose proof (matchLiteral_i_agree _ _ _ Hs Hm) as Hag.
  unfold WRITE_KEYWORDS in Hin. simpl in Hin.
  repeat (destruct Hin as [<-|Hin]; [discriminate Hag |]). destruct Hin.
Qed.

Lemma run_fmap {A B} (g : A -> B) (m : M Server A) (w : World Server) :
  (g <$> m) w = match m w with
                | (w', Ok a) => (w', Ok (g a))
                | (w', Throw e) => (w', Throw e)
                end.
Proof. reflexivity. Qed.

(** The permission gate: a write without both flags stops after the
    connection is obtained, with the message of the flag that is missing,
    the caller's first. *)
Lemma runQueryImpl_gate (sql : string) (aw : option bool) (w : World Server) :
  isWriteQuery sql = true ->
  default false aw = false \/ writeEnabled w = false ->
  runQueryImpl drv (Some sql) aw w =
    match getConnection drv w with
    | (w1, Ok _) =>
        (w1, Throw (JsError (if default false aw then CONFIG_GATE else CALLER_GATE)))
    | (w1, Throw e) => (w1, Throw e)
    end.
Proof.
  intros Hw Hg. unfold runQueryImpl, getConfig, writeEnabled in *. munfold.
  destruct (getConnection drv w) as [w1 [h|e]]; [|reflexivity].
  rewrite Hw. destruct (default false aw); cbn [negb]; [|reflexivity].
  destruct Hg as [Hg|Hg]; [discriminate |]. now rewrite Hg.
Qed.

(** With both flags and a handle, the statement goes to the server as it
    was given. *)
Lemma runQueryImpl_permitted (sql : string) (w w1 : World Server) (h : Handle) :
  isWriteQuery sql = true -> writeEnabled w = true ->
  getConnection drv w = (w1, Ok h) ->
  executed (trace (fst (runQueryImpl drv (Some sql) (Some true) w)))
  = (executed (trace w1) ++ [sql])%list.
Proof.
  intros Hw He Hc. unfold runQueryImpl, getConfig, writeEnabled in *. munfold.
  rewrite Hc, Hw. cbn [default negb]. rewrite He. cbn [negb].
  rewrite (enforceLimit_write _ _ Hw).
  unfold performance_now, db_execute. cbn.
  destruct (execute drv h sql [] (server w1)) as [sv [res|e]]; cbn;
    now rewrite executed_app.
Qed.

(** Without a statement, the failure comes once the connection is
    obtained. *)
Lemma runQueryImpl_no_sql (aw : option bool) (w : World Server) :
  runQueryImpl drv None aw w =
    match getConnection drv w with
    | (w1, Ok _) => (w1, Throw (TypeError_undefined "sql.trim"))
    | (w1, Throw e) => (w1, Throw e)
    end.
Proof.
  unfold runQueryImpl, getConfig. munfold.
  destruct (getConnection drv w) as [w1 [h|e]]; reflexivity.
Qed.

Lemma caller_flag (aw : option bool) :
  aw <> Some true <-> default false aw = false.
Proof.
  destruct aw as [[]|]; simpl; split; congruence.
Qed.

(** [getConnection] either yields a handle, or fails as the connection
    request failed; it executes nothing either way. *)
Lemma getConnection_outcome (w : World Server) :
  (exists w1 h,
     getConnection drv w = (w1, Ok h) /\ connection_available drv w
     /\ executed (trace w1) = executed (trace w))
  \/ (exists w1 sv e,
        getConnection drv w = (w1, Throw e) /\ _db w = None
        /\ createConnection drv (connectOptions w) (server w) = (sv, Throw e)
        /\ ~ connection_available drv w
        /\ executed (trace w1) = executed (trace w)).
Proof.
  pose proof (getConnection_frame w) as (Hex & _).
  rewrite getConnection_run in *. unfold connection_available.
  destruct (_db w) as [h|].
  - left. now exists w, h.
  - destruct (createConnection drv (connectOptions w) (server w)) as [sv [h|e]] eqn:Hc.
    + left. eexists _, h. split; [reflexivity |]. split; [now exists sv, h | exact Hex].
    + right. eexists _, sv, e. repeat split; try exact Hex.
      intros (sv' & h' & H'). discriminate H'.
Qed.

Lemma runQueryImpl_unconnected (text : option string) (aw : option bool)
    (w w1 : World Server) (e : exn) :
  getConnection drv w = (w1, Throw e) -> runQueryImpl drv text aw w = (w1, Throw e).
Proof.
  intros Hc. unfold runQueryImpl, getConfig. munfold. now rewrite Hc.
Qed.

Lemma available_not_failing (w : World Server) (sv : Server) (e : exn) :
  connection_available drv (tick drv w) -> _db w = None ->
  createConnection drv (connectOptions w) (server w) = (sv, Throw e) -> False.
Proof.
  unfold connection_available. cbn [_db tick]. intros Hav Hdb Hcc.
  rewrite Hdb in Hav. destruct Hav as (sv' & h' & Hav).
  change (connectOptions (tick drv w)) with (connectOptions w) in Hav.
  change (server (tick drv w)) with (server w) in Hav. congruence.
Qed.

(** C1, amended. A write-classified statement sent as a query task always
    comes back as an envelope.  It reaches the server only with both flags
    true; without both, the envelope has success false.  When a handle is
    at hand (memoized, or the server accepts the connection), the error is
    the caller-side message if the caller did not allow the write, the
    configuration-side message if the caller did and the configuration
    does not, and with both flags the statement is executed.  When the
    connection request fails, the envelope has success false and the error
    of the connection, whatever the flags. *)
Theorem write_gate (sql : string) (callerAllowWrite : option bool) (w : World Server) :
  isWriteQuery sql = true ->
  exists w' r,
    executeMySQLTask drv (Some (queryTask (Some sql) callerAllowWrite)) None w
      = (w', Ok r)
    /\ (executed (trace w') <> executed (trace w) ->
          callerAllowWrite = Some true /\ writeEnabled w = true)
    /\ (callerAllowWrite <> Some true \/ writeEnabled w = false -> success r = false)
    /\ (connection_available drv w ->
          (callerAllowWrite <> Some true -> error r = Some CALLER_GATE)
          /\ (callerAllowWrite = Some true -> writeEnabled w = false ->
                error r = Some CONFIG_GATE)
          /\ (callerAllowWrite = Some true -> writeEnabled w = true ->
                executed (trace w') = (executed (trace w) ++ [sql])%list))
    /\ (forall sv e,
          _db w = None ->
          createConnection drv (connectOptions w) (server w) = (sv, Throw e) ->
          success r = false /\ error r = Some (errorText e)
          /\ executed (trace w') = executed (trace w)).
Proof.
  intros Hw. rewrite executeMySQLTask_run, dispatch_queryTask, run_fmap.
  destruct (getConnection_outcome (tick drv w))
    as [(w1 & h & Hc & Hav & Hex) | (w1 & sv & e & Hc & Hdb & Hcc & Hnav & Hex)].
  - (* a handle is at hand *)
    destruct (decide (default false callerAllowWrite = false \/ writeEnabled w = false))
      as [Hg|Hg].
    + rewrite (runQueryImpl_gate sql callerAllowWrite (tick drv w) Hw Hg), Hc.
      eexists _, _. split; [reflexivity |]. cbn [trace tick success error errorText].
      split; [intros Hne; now destruct Hne |]. split; [reflexivity |].
      split; [intros _; repeat split |].
      * intros Hf. apply caller_flag in Hf. now rewrite Hf.
      * now intros ->.
      * intros -> He. destruct Hg as [Hg|Hg]; [discriminate | congruence].
      * intros sv e Hdb Hcc. exfalso. exact (available_not_failing w sv e Hav Hdb Hcc).
    + assert (Ha : callerAllowWrite = Some true).
      { destruct callerAllowWrite as [[]|]; simpl in Hg; try reflexivity; exfalso; auto. }
      assert (He : writeEnabled w = true).
      { destruct (writeEnabled w); [reflexivity | exfalso; auto]. }
      subst callerAllowWrite.
      pose proof (runQueryImpl_permitted sql (tick drv w) w1 h Hw He Hc) as Hp.
      destruct (runQueryImpl drv (Some sql) (Some true) (tick drv w)) as [w3 [x|e]];
        cbn [fst] in Hp.
      all: eexists _, _; (split; [reflexivity |]); cbn [trace tick success error].
      all: split; [intros _; now split |].
      all: split; [intros [Hf|Hf]; [now destruct Hf | congruence] |].
      all: split; [intros _; repeat split; try congruence; intros _ _;
                   now rewrite Hp, Hex |].
      all: intros sv e' Hdb Hcc; exfalso.
      all: exact (available_not_failing w sv e' Hav Hdb Hcc).
  - (* the connection request fails *)
    rewrite (runQueryImpl_unconnected _ _ _ _ _ Hc).
    eexists _, _. split; [reflexivity |]. cbn [trace tick success error].
    split; [intros Hne; now destruct Hne |]. split; [reflexivity |].
    split; [intros Hav; now destruct Hnav |].
    intros sv' e' _ Hcc'.
    change (connectOptions (tick drv w)) with (connectOptions w) in Hcc.
    change (server (tick drv w)) with (server w) in Hcc.
    rewrite Hcc in Hcc'. injection Hcc' as _ <-. now repeat split.
Qed.

(** C5. A write-classified statement sent as a query task while the
    configuration does not enable writes comes back with success false;
    no statement is handed to the server, whose state is the one it had,
    or the one the connection request alone left when no handle was
    memoized. *)
Theorem rejected_write_executes_nothing
    (sql : string) (callerAllowWrite : option bool) (w : World Server) :
  isWriteQuery sql = true -> writeEnabled w = false ->
  exists w' r,
    executeMySQLTask drv (Some (queryTask (Some sql) callerAllowWrite)) None w
      = (w', Ok r)
    /\ success r = false
    /\ executed (trace w') = executed (trace w)
    /\ server w' = match _db w with
                   | Some _ => server w
                   | None => fst (createConnection drv (connectOptions w) (server w))
                   end.
Proof.
  intros Hw He. rewrite executeMySQLTask_run, dispatch_queryTask, run_fmap.
  rewrite (runQueryImpl_gate sql callerAllowWrite (tick drv w) Hw (or_intror He)).
  pose proof (getConnection_frame (tick drv w)) as (Hex & _ & _ & _ & Hsv).
  destruct (getConnection drv (tick drv w)) as [w1 [h|e]]; cbn [fst] in *;
    eexists _, _; (split; [reflexivity |]); cbn [trace tick success server];
    repeat split; assumption.
Qed.

Lemma getSchemaImpl_first_call (tableName : option value) (h : Handle) (w : World Server) :
  _db w = Some h ->
  exists rest,
    trace (fst (getSchemaImpl drv tableName w))
    = (trace w ++ EvExecute h SQL_COLUMNS [tableName] :: rest)%list.
Proof.
  intros Hdb. unfold getSchemaImpl. rewrite run_bind, (getConnection_memo _ _ _ Hdb).
  rewrite run_bind. unfold db_execute at 1.
  destruct (execute drv h SQL_COLUMNS [tableName] (server w)) as [sv1 [r1|e1]];
    [| now exists []].
  rewrite run_bind. unfold db_execute at 1.
  destruct (execute drv h SQL_INDEXES [tableName] _) as [sv2 [r2|e2]];
    [| exists [EvExecute h SQL_INDEXES [tableName]]; cbn; now rewrite <- app_assoc].
  rewrite run_bind. unfold db_execute at 1.
  destruct (execute drv h SQL_FOREIGN_KEYS [tableName] _) as [sv3 [r3|e3]];
    exists [EvExecute h SQL_INDEXES [tableName]; EvExecute h SQL_FOREIGN_KEYS [tableName]];
    cbn; now rewrite <- !app_assoc.
Qed.

(** [getSchemaImpl], call by call: the connection, then the three
    statements, each on the server as the one before left it, up to the
    first that is rejected. *)
Lemma getSchemaImpl_run (tableName : option value) (w : World Server) :
  getSchemaImpl drv tableName w =
  match getConnection drv w with
  | (w1, Throw e) => (w1, Throw e)
  | (w1, Ok h) =>
      let '(sv1, r1) := execute drv h SQL_COLUMNS [tableName] (server w1) in
      let w2 := outside drv (EvExecute h SQL_COLUMNS [tableName]) sv1 w1 in
      match r1 with
      | Throw e => (w2, Throw e)
      | Ok colRows =>
          let '(sv2, r2) := execute drv h SQL_INDEXES [tableName] sv1 in
          let w3 := outside drv (EvExecute h SQL_INDEXES [tableName]) sv2 w2 in
          match r2 with
          | Throw e => (w3, Throw e)
          | Ok idxRows =>
              let '(sv3, r3) := execute drv h SQL_FOREIGN_KEYS [tableName] sv2 in
              let w4 := outside drv (EvExecute h SQL_FOREIGN_KEYS [tableName]) sv3 w3 in
              match r3 with
              | Throw e => (w4, Throw e)
              | Ok fkRows =>
                  (w4, Ok {| table := tableName; columns := colRows;
                             indexes := idxRows; foreign_keys := fkRows |})
              end
          end
      end
  end.
Proof.
  unfold getSchemaImpl. rewrite run_bind.
  destruct (getConnection drv w) as [w1 [h|e]]; [| reflexivity].
  rewrite run_bind. unfold db_execute at 1.
  destruct (execute drv h SQL_COLUMNS [tableName] (server w1)) as [sv1 [r1|e1]];
    [| reflexivity].
  rewrite run_bind. unfold db_execute at 1. cbn [server outside].
  destruct (execute drv h SQL_INDEXES [tableName] sv1) as [sv2 [r2|e2]];
    [| reflexivity].
  rewrite run_bind. unfold db_execute at 1. cbn [server outside].
  destruct (execute drv h SQL_FOREIGN_KEYS [tableName] sv2) as [sv3 [r3|e3]];
    reflexivity.
Qed.

(** C6, amended. The dispatcher has no validation step of its own.  A
    get-schema, query or chat request without its [params] object fails
    on reading the parameter, before any call to the driver, and is
    reported with success false.  A query request whose [params] has no [sql] is
    reported with success false and has no statement executed, but the
    connection is obtained first, and requested from the server when no
    handle is memoized.  A get-schema request whose [params] has no
    [tableName] obtains the connection as well: when there is none to be
    had it is reported with success false and nothing is executed;
    otherwise the columns statement is handed to the driver with an
    undefined bound parameter, and with a driver that rejects an undefined
    parameter (as mysql2 does) the request is reported with success false
    and that statement is the only one handed over. *)
Theorem missing_parameter (w : World Server) :
  (forall tag, tag = GET_SCHEMA \/ tag = QUERY \/ tag = CHAT ->
     exists w' r,
       executeMySQLTask drv (Some {| task := Some tag; params := None |}) None w
         = (w', Ok r)
       /\ success r = false /\ trace w' = trace w /\ server w' = server w)
  /\ (forall p, sql p = None ->
       exists w' r,
         executeMySQLTask drv (Some {| task := Some QUERY; params := Some p |}) None w
           = (w', Ok r)
         /\ success r = false
         /\ executed (trace w') = executed (trace w)
         /\ trace w' = (trace w ++ match _db w with
                                   | Some _ => []
                                   | None => [EvConnect (connectOptions w)]
                                   end)%list)
  /\ (forall p, tableName p = None ->
       exists w' r,
         executeMySQLTask drv (Some {| task := Some GET_SCHEMA; params := Some p |}) None w
           = (w', Ok r)
         /\ (~ connection_available drv w ->
               success r = false /\ executed (trace w') = executed (trace w))
         /\ (connection_available drv w ->
               exists h rest,
                 trace w' = (trace w
                             ++ match _db w with
                                | Some _ => []
                                | None => [EvConnect (connectOptions w)]
                                end
                             ++ EvExecute h SQL_COLUMNS [None] :: rest)%list
                 /\ ((forall h' text ps sv, In None ps ->
                        exists sv' e, execute drv h' text ps sv = (sv', Throw e)) ->
                     success r = false /\ rest = []))).
Proof.
  split; [| split].
  - intros tag Htag. rewrite executeMySQLTask_run.
    destruct (dispatch_no_params tag (tick drv w) Htag) as [e ->].
    eexists _, _. split; [reflexivity |]. repeat split.
  - intros p Hp. rewrite executeMySQLTask_run, dispatch_query, run_fmap, Hp.
    rewrite runQueryImpl_no_sql.
    pose proof (getConnection_frame (tick drv w)) as (Hex & _ & _ & Htr & _).
    destruct (getConnection drv (tick drv w)) as [w1 [h|e]]; cbn [fst] in *;
      eexists _, _; (split; [reflexivity |]); cbn [trace tick success];
      repeat split; assumption.
  - intros p Hp. rewrite executeMySQLTask_run.
    assert (Hd : dispatch drv (Some {| task := Some GET_SCHEMA; params := Some p |})
                   (tick drv w)
                 = (DSchema <$> getSchemaImpl drv None) (tick drv w)).
    { unfold dispatch. munfold. cbn. now rewrite Hp. }
    rewrite Hd, run_fmap, getSchemaImpl_run.
    pose proof (getConnection_frame (tick drv w)) as (Hex & _ & _ & Htr & _).
    cbn [trace tick _db] in Hex, Htr.
    destruct (getConnection_outcome (tick drv w))
      as [(w1 & h & Hc & Hav & _) | (w1 & sv & e & Hc & Hdb & Hcc & Hnav & _)];
      rewrite Hc in *; cbn [fst] in Hex, Htr.
    + assert (Hrejected : (forall h' text ps sv, In None ps ->
                             exists sv' e, execute drv h' text ps sv = (sv', Throw e)) ->
                          forall sv1 r1,
                            execute drv h SQL_COLUMNS [None] (server w1) = (sv1, Ok r1) ->
                            False).
      { intros Hrej sv1 r1 E.
        destruct (Hrej h SQL_COLUMNS [None] (server w1)) as (? & ? & Hx);
          [now left | congruence]. }
      destruct (execute drv h SQL_COLUMNS [None] (server w1)) as [sv1 [r1|e1]].
      * destruct (execute drv h SQL_INDEXES [None] sv1) as [sv2 [r2|e2]];
          [destruct (execute drv h SQL_FOREIGN_KEYS [None] sv2) as [sv3 [r3|e3]] |].
        all: eexists _, _; (split; [reflexivity |]);
          (split; [intros Hn; now destruct Hn |]).
        all: intros _; exists h; eexists.
        all: split; [cbn [trace tick outside fst]; rewrite Htr, <- !app_assoc;
                     reflexivity |].
        all: intros Hrej; exfalso; exact (Hrejected Hrej _ _ eq_refl).
      * eexists _, _; (split; [reflexivity |]); (split; [intros Hn; now destruct Hn |]).
        intros _; exists h, [].
        split; [cbn [trace tick outside fst]; rewrite Htr, <- !app_assoc; reflexivity |].
        intros _. now split.
    + eexists _, _; (split; [reflexivity |]). split.
      * intros _. split; [reflexivity | exact Hex].
      * intros Hav. contradiction.
Qed.

End Dispatcher.

(** ** Runs against the small driver *)

(** C1 as stated fails: with the server out of reach, a write that the
    caller did not allow, under a configuration that enables writes, is
    reported with the error of the connection, not with the caller-side
    message. *)
Lemma write_gate_counterexample :
  let w := Toy.world false {[ "MYSQL_ALLOW_WRITE" := "true" ]} in
  isWriteQuery "DELETE FROM users" = true
  /\ writeEnabled w = true
  /\ exists w' r,
       executeMySQLTask Toy.driver
         (Some (queryTask (Some "DELETE FROM users") (Some false))) None w
         = (w', Ok r)
       /\ success r = false
       /\ error r = Some "connect ECONNREFUSED 127.0.0.1:3306"
       /\ error r <> Some CALLER_GATE.
Proof.
  cbv zeta. split; [reflexivity |]. split; [reflexivity |].
  eexists _, _. split; [reflexivity |]. cbn.
  repeat split. discriminate.
Qed.

Lemma write_gate_witness :
  let w := Toy.world true {[ "MYSQL_ALLOW_WRITE" := "true" ]} in
  exists w' r,
    executeMySQLTask Toy.driver
      (Some (queryTask (Some "DELETE FROM users") (Some false))) None w = (w', Ok r)
    /\ success r = false
    /\ error r = Some CALLER_GATE.
Proof.
  cbv zeta.
  destruct (write_gate Toy.driver "DELETE FROM users" (Some false)
              (Toy.world true {[ "MYSQL_ALLOW_WRITE" := "true" ]}) eq_refl)
    as (w' & r & Hrun & _ & Hfail & Hmsg).
  exists w', r. split; [exact Hrun |]. split.
  - apply Hfail. left. discriminate.
  - apply Hmsg; [| discriminate].
    unfold connection_available. cbn. eexists _, _. reflexivity.
Defined.

Lemma rejected_write_witness :
  exists w' r,
    executeMySQLTask Toy.driver
      (Some (queryTask (Some "INSERT INTO users (email, name) VALUES ('x@x.com','X')") None))
      None (Toy.world true ∅) = (w', Ok r)
    /\ success r = false
    /\ executed (trace w') = []
    /\ Toy.users_rows (server w') = 10.
Proof.
  assert (Hw : isWriteQuery "INSERT INTO users (email, name) VALUES ('x@x.com','X')"
               = true) by reflexivity.
  assert (He : writeEnabled (Toy.world true ∅) = false) by (vm_compute; reflexivity).
  destruct (rejected_write_executes_nothing Toy.driver _ None _ Hw He)
    as (w' & r & Hrun & Hfail & Hex & Hsv).
  exists w', r. repeat split; [exact Hrun | exact Hfail | exact Hex |].
  rewrite Hsv. reflexivity.
Defined.

(** C6 as stated fails: a query request without [sql] has the connection
    opened before its failure is raised. *)
Lemma missing_parameter_counterexample :
  exists w' r,
    executeMySQLTask Toy.driver (Some {| task := Some QUERY; params := Some noParams |})
      None (Toy.world true ∅) = (w', Ok r)
    /\ success r = false
    /\ trace w' = [EvConnect (ByFields "localhost" (Num 3306) "root" "" "mysql")]
    /\ Toy.open_handles (server w') = [0].
Proof.
  eexists _, _. split; [reflexivity |]. cbn. repeat split.
Qed.

Lemma closeConnection_idempotent_witness :
  closeConnection Toy.driver (Toy.world true ∅) = (Toy.world true ∅, Ok tt).
Proof.
  apply (proj1 (closeConnection_idempotent Toy.driver (Toy.world true ∅))).
  reflexivity.
Defined.

(** The query of the specification's scenario: one row, the count of
    [users], through a statement the limiter has capped. *)
Example count_users :
  let '(w', r) := executeMySQLTask Toy.driver
                    (Some (queryTask (Some "SELECT COUNT(*) AS c FROM users") None))
                    None (Toy.world true ∅) in
  (exists d q, r = Ok {| success := true;
                         data := Some (DQuery {| rows := [ {[ "c" := VNumber (Num 10) ]} ];
                                                 row_count := 1;
                                                 query_duration_ms := q |});
                         error := None; duration_ms := Some d |})
  /\ executed (trace w') = ["SELECT COUNT(*) AS c FROM users LIMIT 1000"].
Proof.
  vm_compute. split; [| reflexivity]. eexists _, _. reflexivity.
Qed.

(** With both flags a write goes through, and a row is added. *)
Example permitted_insert :
  let w := fst (configureAgent Toy.driver
                  {| openaiApiKey := Absent; mysqlUrl := Absent; mysqlHost := Absent;
                     mysqlPort := Absent; mysqlUser := Absent; mysqlPass := Absent;
                     mysqlDb := Absent; allowWrite := Value true; rowLimit := Absent;
                     model := Absent; maxTurns := Absent |}
                  (Toy.world true ∅)) in
  let w' := fst (executeMySQLTask Toy.driver
                   (Some (queryTask (Some "INSERT INTO users (email, name) VALUES ('x@x.com','X')")
                                    (Some true)))
                   None w) in
  Toy.users_rows (server w') = 11.
Proof. reflexivity. Qed.

(* ================================================================== *)
(** * Further properties of the program *)

(** ** The limiter and the classifier together *)

Section LimiterFacts.

Lemma isWhiteSpace_canonical c : isWhiteSpace (canonicalize c) = isWhiteSpace c.
Proof.
  destruct c as [[] [] [] [] [] [] [] []]; vm_compute; reflexivity.
Qed.

(** A text on which a needle matches does not start with white space,
    when the needle does not. *)
Lemma matchLiteral_i_trimStart k kw s :
  isWhiteSpace (canonicalize k) = false ->
  matchLiteral_i (String k kw) s = true -> trimStart s = s.
Proof.
  intros Hk Hm. destruct s as [|c s]; [reflexivity |].
  simpl in Hm. apply andb_true_iff in Hm as [Hc _].
  apply Ascii.eqb_eq in Hc. simpl.
  rewrite <- (isWhiteSpace_canonical c), <- Hc, Hk. reflexivity.
Qed.

Lemma matchLiteral_i_app kw s x :
  matchLiteral_i kw s = true -> matchLiteral_i kw (s +:+ x) = true.
Proof.
  revert s; induction kw as [|k kw IH]; intros s Hm; [reflexivity |].
  destruct s as [|c s]; [discriminate |]. simpl in *.
  apply andb_true_iff in Hm as [Hc Hm]. now rewrite Hc, IH.
Qed.

(** A text that begins with SELECT is not a write for the classifier. *)
Lemma select_not_write s :
  matchLiteral_i "SELECT" s = true -> WRITE_PATTERNS_test s = false.
Proof.
  intros Hs. apply not_true_is_false. intros Hw.
  unfold WRITE_PATTERNS_test in Hw. apply existsb_exists in Hw as [kw [Hin Hm]].
  pose proof (matchLiteral_i_agree _ _ _ Hs Hm) as Hag.
  unfold WRITE_KEYWORDS in Hin. simpl in Hin.
  repeat (destruct Hin as [<-|Hin]; [discriminate Hag |]). destruct Hin.
Qed.

Lemma trimEnd_nonempty c r : isWhiteSpace c = false -> trimEnd (String c r) <> "".
Proof.
  intros Hc. cbn [trimEnd]. destruct (trimEnd r); [rewrite Hc |]; discriminate.
Qed.

Lemma trimEnd_app a b : trimEnd b <> "" -> trimEnd (a +:+ b) = a +:+ trimEnd b.
Proof.
  intros Hb. induction a as [|c a IH]; [reflexivity |].
  simpl. rewrite IH. destruct (a +:+ trimEnd b) as [|x y] eqn:E; [| reflexivity].
  destruct a; simpl in E; [contradiction | discriminate].
Qed.

(** The decimal text of a number starts with a digit, a sign or N. *)
Lemma Number_toString_head n :
  exists c r, Number_toString n = String c r /\ isWhiteSpace c = false.
Proof.
  destruct n as [|z]; [now eexists _, _ |].
  unfold Number_toString. destruct (Z.to_int z) as [d|d].
  - destruct d; simpl; eexists _, _; split; reflexivity.
  - simpl. eexists _, _; split; reflexivity.
Qed.

(** What the limiter appends stays in place under [trim], and is found by
    the search for an existing limit. *)
Lemma limited_has_limit t n :
  matchLiteral_i "SELECT" t = true ->
  let r := t +:+ " LIMIT " +:+ Number_toString n in
  trimStart r = r
  /\ includes (toUpperCase (trim r)) " LIMIT " = true.
Proof.
  intros Hs r.
  assert (Hstart : trimStart r = r).
  { apply (matchLiteral_i_trimStart "S" "ELECT"); [reflexivity |].
    now apply matchLiteral_i_app. }
  split; [exact Hstart |].
  unfold trim. rewrite Hstart. subst r.
  destruct (Number_toString_head n) as (c & rest & Hn & Hc). rewrite Hn.
  rewrite trimEnd_app.
  2:{ rewrite (trimEnd_app " LIMIT ") by now apply trimEnd_nonempty. discriminate. }
  rewrite (trimEnd_app " LIMIT ") by now apply trimEnd_nonempty.
  apply includes_iff. rewrite !toUpperCase_app.
  exists (toUpperCase t), (toUpperCase (trimEnd (String c rest))). reflexivity.
Qed.

(** The two outcomes of the limiter. *)
Lemma enforceLimit_cases sql n :
  (matchLiteral_i "SELECT" (trim sql) = true
   /\ includes (toUpperCase (trim sql)) " LIMIT " = false
   /\ enforceLimit sql n = trim sql +:+ " LIMIT " +:+ Number_toString n)
  \/ ((matchLiteral_i "SELECT" (trim sql) = false
       \/ includes (toUpperCase (trim sql)) " LIMIT " = true)
      /\ forall m, enforceLimit sql m = sql).
Proof.
  unfold enforceLimit. cbv zeta. rewrite startsWith_toUpperCase by reflexivity.
  destruct (matchLiteral_i "SELECT" (trim sql));
    destruct (includes (toUpperCase (trim sql)) " LIMIT "); cbn [andb negb]; auto.
Qed.

(** X1. The limiter is idempotent: applied to its own result, with the same
    or another limit, it changes nothing. *)
Theorem enforceLimit_idempotent (sql : string) (n m : number) :
  enforceLimit (enforceLimit sql n) m = enforceLimit sql n.
Proof.
  destruct (enforceLimit_cases sql n) as [(Hsel & _ & ->) | [_ Hsame]].
  - destruct (limited_has_limit (trim sql) n Hsel) as [_ Hinc]. cbv zeta in Hinc.
    destruct (enforceLimit_cases (trim sql +:+ " LIMIT " +:+ Number_toString n) m)
      as [(_ & Hno & _) | [_ Hkeep]]; [congruence | apply Hkeep].
  - now rewrite !Hsame.
Qed.

(** X2. Limiting does not change how a statement is classified, and a
    statement classified as a write goes through the limiter untouched:
    no statement is both limited and gated. *)
Theorem classification_stable_under_limit (sql : string) (n : number) :
  isWriteQuery (enforceLimit sql n) = isWriteQuery sql
  /\ (isWriteQuery sql = true -> enforceLimit sql n = sql)
  /\ (enforceLimit sql n <> sql -> isWriteQuery sql = false).
Proof.
  assert (Hkeep : isWriteQuery sql = true -> enforceLimit sql n = sql)
    by apply enforceLimit_write.
  split; [| split; [exact Hkeep |]].
  - unfold enforceLimit. cbv zeta.
    destruct (startsWith (toUpperCase (trim sql)) "SELECT" &&
              negb (includes (toUpperCase (trim sql)) " LIMIT ")) eqn:Hc; [| reflexivity].
    apply andb_true_iff in Hc as [Hsel _].
    rewrite startsWith_toUpperCase in Hsel by reflexivity.
    destruct (limited_has_limit (trim sql) n Hsel) as [Hstart _]. cbv zeta in Hstart.
    unfold isWriteQuery at 1. unfold trim at 1.
    rewrite WRITE_PATTERNS_test_trimEnd, Hstart.
    rewrite (select_not_write _ (matchLiteral_i_app _ _ _ Hsel)).
    symmetry. unfold isWriteQuery. now apply select_not_write.
  - intros Hne. destruct (isWriteQuery sql) eqn:Hw; [| reflexivity].
    now destruct Hne; apply Hkeep.
Qed.

(** A needle is matched on as many code units as it has. *)
Lemma matchLiteral_i_substring kw s n :
  String.length kw <= n -> matchLiteral_i kw (substring 0 n s) = matchLiteral_i kw s.
Proof.
  revert s n; induction kw as [|k kw IH]; intros s n Hn; [reflexivity |].
  destruct n as [|n]; [simpl in Hn; lia |].
  destruct s as [|c s]; [reflexivity |].
  simpl. rewrite IH; [reflexivity | simpl in Hn; lia].
Qed.

(** X3. The classifier reads the first eight code units that follow the
    leading white space and nothing else: two statements that agree there
    are classified alike, whatever comes after. *)
Theorem isWriteQuery_prefix_only (a b : string) :
  substring 0 8 (trimStart a) = substring 0 8 (trimStart b) ->
  isWriteQuery a = isWriteQuery b.
Proof.
  intros Hab. unfold isWriteQuery, trim.
  rewrite !WRITE_PATTERNS_test_trimEnd. unfold WRITE_PATTERNS_test, WRITE_KEYWORDS.
  cbn [existsb].
  rewrite <- !(matchLiteral_i_substring _ (trimStart a) 8) by (simpl; lia).
  rewrite <- !(matchLiteral_i_substring _ (trimStart b) 8) by (simpl; lia).
  now rewrite Hab.
Qed.

End LimiterFacts.

Lemma isWriteQuery_prefix_only_witness :
  isWriteQuery "SELECT 1; DROP TABLE users" = isWriteQuery "SELECT 1".
Proof.
  apply (isWriteQuery_prefix_only "SELECT 1; DROP TABLE users" "SELECT 1").
  reflexivity.
Defined.

(** ** What the program leaves alone *)

Section Frames.

Context {Server : Type} (drv : Driver Server).

Lemma frame_ret {A} (a : A) : frame (mret a : M Server A).
Proof. intros w. cbn. repeat split. exists []. now rewrite app_nil_r. Qed.

Lemma frame_throw {A} (e : exn) : frame (throw e : M Server A).
Proof. intros w. cbn. repeat split. exists []. now rewrite app_nil_r. Qed.

Lemma frame_bind {A B} (m : M Server A) (f : A -> M Server B) :
  frame m -> (forall a, frame (f a)) -> frame (m ≫= f).
Proof.
  intros Hm Hf w. rewrite run_bind. destruct (Hm w) as (Hc & He & ev & Ht).
  destruct (m w) as [w1 [a|e]]; cbn [fst] in *; [| eauto].
  destruct (Hf a w1) as (Hc' & He' & ev' & Ht').
  split; [congruence |]. split; [congruence |].
  exists (ev ++ ev')%list. now rewrite Ht', Ht, app_assoc.
Qed.

Lemma frame_fmap {A B} (g : A -> B) (m : M Server A) : frame m -> frame (g <$> m).
Proof.
  intros Hm w. specialize (Hm w). rewrite run_fmap.
  destruct (m w) as [w1 [a|e]]; exact Hm.
Qed.

Lemma frame_try_catch {A} (m : M Server A) (h : exn -> M Server A) :
  frame m -> (forall e, frame (h e)) -> frame (try_catch m h).
Proof.
  intros Hm Hh w. unfold try_catch. destruct (Hm w) as (Hc & He & ev & Ht).
  destruct (m w) as [w1 [a|e]]; cbn [fst] in *; [eauto |].
  destruct (Hh e w1) as (Hc' & He' & ev' & Ht').
  split; [congruence |]. split; [congruence |].
  exists (ev ++ ev')%list. now rewrite Ht', Ht, app_assoc.
Qed.

Lemma frame_member {A B} (expr : string) (o : option A) (f : A -> B) :
  frame (member expr o f : M Server B).
Proof. destruct o; [apply frame_ret | apply frame_throw]. Qed.

Lemma frame_promise_all {A} (ps : list (M Server A)) :
  Forall frame ps -> frame (promise_all ps).
Proof.
  induction 1 as [|p ps Hp _ IH]; [apply frame_ret |].
  intros w. cbn [promise_all]. destruct (Hp w) as (Hc & He & ev & Ht).
  destruct (p w) as [w1 r]. destruct (IH w1) as (Hc' & He' & ev' & Ht').
  destruct (promise_all ps w1) as [w2 rs]. cbn [fst] in *.
  split; [congruence |]. split; [congruence |].
  exists (ev ++ ev')%list. now rewrite Ht', Ht, app_assoc.
Qed.

Lemma frame_settle {A} (m : M Server A) : frame m -> frame (settle m).
Proof. intros Hm w. specialize (Hm w). unfold settle. now destruct (m w). Qed.

Lemma frame_turn {X Y} (step : X -> M Server Y) (calls : list (Result X))
    (rejection : option exn) :
  (forall x, frame (step x)) -> frame (turn step calls rejection).
Proof.
  intros Hs. revert rejection.
  induction calls as [|[x|e] calls IH]; intros rejection; cbn [turn].
  - apply frame_ret.
  - apply frame_bind; [apply frame_settle, Hs | intros r].
    apply frame_bind; [apply IH | intros p; apply frame_ret].
  - apply frame_bind; [apply IH | intros p; apply frame_ret].
Qed.

Lemma frame_map {A B} (f : A -> M Server B) (l : list A) :
  (forall a, frame (f a)) -> Forall frame (map f l).
Proof.
  intros Hf. induction l as [|a l IH]; constructor; [apply Hf | exact IH].
Qed.

Lemma frame_performance_now : frame (performance_now drv).
Proof. intros w. cbn. repeat split. exists []. now rewrite app_nil_r. Qed.

Lemma frame_createConnection o : frame (mysql_createConnection drv o).
Proof.
  intros w. unfold mysql_createConnection.
  destruct (createConnection drv o (server w)). cbn. repeat split. eauto.
Qed.

Lemma frame_execute h q ps : frame (db_execute drv h q ps).
Proof.
  intros w. unfold db_execute.
  destruct (execute drv h q ps (server w)). cbn. repeat split. eauto.
Qed.

Lemma frame_end h : frame (db_end drv h).
Proof. intros w. cbn. repeat split. eauto. Qed.

Lemma frame_run a m t : frame (run_agent drv a m t).
Proof.
  intros w. unfold run_agent.
  destruct (run drv a m t (_db w, server w)) as [[db sv] r]. cbn. repeat split. eauto.
Qed.

Lemma frame_get_db : frame (get_db : M Server _).
Proof. apply (frame_ret (A:=unit) tt). Qed.

Lemma frame_set_db db : frame (set_db db : M Server _).
Proof. intros w. cbn. repeat split. exists []. now rewrite app_nil_r. Qed.

Lemma frame_get_config : frame (get_config : M Server _).
Proof. apply (frame_ret (A:=unit) tt). Qed.

Lemma frame_Bun_env : frame (Bun_env : M Server _).
Proof. apply (frame_ret (A:=unit) tt). Qed.

End Frames.

Create HintDb frame.

#[local] Hint Resolve frame_ret frame_throw frame_fmap frame_try_catch frame_member
  frame_performance_now frame_createConnection frame_execute frame_end frame_run
  frame_get_db frame_set_db frame_get_config frame_Bun_env : frame.

Ltac framed :=
  cbv zeta;
  repeat first
    [ solve [eauto with frame]
    | apply frame_bind; [| intros ?]
    | apply frame_fmap
    | apply frame_try_catch; [| intros ?]
    | match goal with
      | |- frame (match ?x with _ => _ end) => destruct x
      end ].

Section FrameProgram.

Context {Server : Type} (drv : Driver Server).

Lemma frame_getConfig : frame (getConfig : M Server _).
Proof. unfold getConfig. framed. Qed.

Lemma frame_getConnection : frame (getConnection drv).
Proof. unfold getConnection, getConnectionConfig, getConfig. framed. Qed.

Lemma frame_closeConnection : frame (closeConnection drv).
Proof. unfold closeConnection. framed. Qed.

Hint Resolve frame_getConfig frame_getConnection frame_closeConnection : frame.

Lemma frame_testConnectionImpl : frame (testConnectionImpl drv).
Proof. unfold testConnectionImpl. framed. Qed.

Lemma frame_withExactRowCount h t : frame (withExactRowCount drv h t).
Proof. unfold withExactRowCount. framed. Qed.

Lemma frame_listTablesImpl b : frame (listTablesImpl drv b).
Proof.
  unfold listTablesImpl. framed.
  apply frame_promise_all, frame_map, frame_withExactRowCount.
Qed.

Lemma frame_getSchemaImpl t : frame (getSchemaImpl drv t).
Proof. unfold getSchemaImpl. framed. Qed.

Lemma frame_getAllSchemasImpl : frame (getAllSchemasImpl drv).
Proof.
  unfold getAllSchemasImpl, getSchemaImpl_all. framed.
  all: apply frame_turn; intros x; repeat destruct x as [x ?]; framed.
Qed.

Lemma frame_runQueryImpl q a : frame (runQueryImpl drv q a).
Proof. unfold runQueryImpl. framed. Qed.

Lemma frame_createAgent : frame (createAgent : M Server _).
Proof. unfold createAgent. framed. Qed.

Hint Resolve frame_testConnectionImpl frame_listTablesImpl frame_getSchemaImpl
  frame_getAllSchemasImpl frame_runQueryImpl frame_createAgent : frame.

Lemma frame_dispatch t : frame (dispatch drv t).
Proof. unfold dispatch. framed. Qed.

Hint Resolve frame_dispatch : frame.

(** X4. A task run without a configuration argument, whatever the task and
    however it ends, leaves the configuration overrides and the environment
    as they were, and only adds to the record of calls made. *)
Theorem task_leaves_configuration (taskInput : option TaskParams) (w : World Server) :
  let w' := fst (executeMySQLTask drv taskInput None w) in
  _config w' = _config w /\ env w' = env w
  /\ exists ev, trace w' = (trace w ++ ev)%list.
Proof.
  assert (H : frame (executeMySQLTask drv taskInput None)).
  { unfold executeMySQLTask. framed. }
  exact (H w).
Qed.

End FrameProgram.

(** ** The memoized handle over the tasks *)

Section Handle.

Context {Server : Type} (drv : Driver Server).

Lemma kept_ret {A} (a : A) : keeps_handle (mret a : M Server A).
Proof. intros w h H. cbn. split; [exact H |]. exists []. now rewrite app_nil_r. Qed.

Lemma kept_throw {A} (e : exn) : keeps_handle (throw e : M Server A).
Proof. intros w h H. cbn. split; [exact H |]. exists []. now rewrite app_nil_r. Qed.

Lemma kept_bind {A B} (m : M Server A) (f : A -> M Server B) :
  keeps_handle m -> (forall a, keeps_handle (f a)) -> keeps_handle (m ≫= f).
Proof.
  intros Hm Hf w h H. rewrite run_bind. destruct (Hm w h H) as (Hd & ev & Ht & Hev).
  destruct (m w) as [w1 [a|e]]; cbn [fst] in *; [| eauto].
  destruct (Hf a w1 h Hd) as (Hd' & ev' & Ht' & Hev').
  split; [exact Hd' |]. exists (ev ++ ev')%list.
  split; [now rewrite Ht', Ht, app_assoc |].
  now rewrite forallb_app, Hev, Hev'.
Qed.

Lemma kept_fmap {A B} (g : A -> B) (m : M Server A) :
  keeps_handle m -> keeps_handle (g <$> m).
Proof.
  intros Hm w h H. specialize (Hm w h H). rewrite run_fmap.
  destruct (m w) as [w1 [a|e]]; exact Hm.
Qed.

Lemma kept_try_catch {A} (m : M Server A) (c : exn -> M Server A) :
  keeps_handle m -> (forall e, keeps_handle (c e)) -> keeps_handle (try_catch m c).
Proof.
  intros Hm Hc w h H. unfold try_catch. destruct (Hm w h H) as (Hd & ev & Ht & Hev).
  destruct (m w) as [w1 [a|e]]; cbn [fst] in *; [eauto |].
  destruct (Hc e w1 h Hd) as (Hd' & ev' & Ht' & Hev').
  split; [exact Hd' |]. exists (ev ++ ev')%list.
  split; [now rewrite Ht', Ht, app_assoc |].
  now rewrite forallb_app, Hev, Hev'.
Qed.

Lemma kept_member {A B} (expr : string) (o : option A) (f : A -> B) :
  keeps_handle (member expr o f : M Server B).
Proof. destruct o; [apply kept_ret | apply kept_throw]. Qed.

Lemma kept_promise_all {A} (ps : list (M Server A)) :
  Forall keeps_handle ps -> keeps_handle (promise_all ps).
Proof.
  induction 1 as [|p ps Hp _ IH]; [apply kept_ret |].
  intros w h H. cbn [promise_all]. destruct (Hp w h H) as (Hd & ev & Ht & Hev).
  destruct (p w) as [w1 r]. cbn [fst] in *.
  destruct (IH w1 h Hd) as (Hd' & ev' & Ht' & Hev').
  destruct (promise_all ps w1) as [w2 rs]. cbn [fst] in *.
  split; [exact Hd' |]. exists (ev ++ ev')%list.
  split; [now rewrite Ht', Ht, app_assoc |].
  now rewrite forallb_app, Hev, Hev'.
Qed.

Lemma kept_settle {A} (m : M Server A) : keeps_handle m -> keeps_handle (settle m).
Proof. intros Hm w h H. specialize (Hm w h H). unfold settle. now destruct (m w). Qed.

Lemma kept_turn {X Y} (step : X -> M Server Y) (calls : list (Result X))
    (rejection : option exn) :
  (forall x, keeps_handle (step x)) -> keeps_handle (turn step calls rejection).
Proof.
  intros Hs. revert rejection.
  induction calls as [|[x|e] calls IH]; intros rejection; cbn [turn].
  - apply kept_ret.
  - apply kept_bind; [apply kept_settle, Hs | intros r].
    apply kept_bind; [apply IH | intros p; apply kept_ret].
  - apply kept_bind; [apply IH | intros p; apply kept_ret].
Qed.

Lemma kept_map {A B} (f : A -> M Server B) (l : list A) :
  (forall a, keeps_handle (f a)) -> Forall keeps_handle (map f l).
Proof.
  intros Hf. induction l as [|a l IH]; constructor; [apply Hf | exact IH].
Qed.

Lemma kept_performance_now : keeps_handle (performance_now drv).
Proof. intros w h H. cbn. split; [exact H |]. exists []. now rewrite app_nil_r. Qed.

Lemma kept_execute db q ps : keeps_handle (db_execute drv db q ps).
Proof.
  intros w h H. unfold db_execute.
  destruct (execute drv db q ps (server w)). cbn. split; [exact H |]. eauto.
Qed.

Lemma kept_getConfig : keeps_handle (getConfig : M Server _).
Proof. intros w h H. cbn. split; [exact H |]. exists []. now rewrite app_nil_r. Qed.

Lemma kept_getConnection : keeps_handle (getConnection drv).
Proof.
  intros w h H. rewrite (getConnection_memo drv w h H). cbn.
  split; [exact H |]. exists []. now rewrite app_nil_r.
Qed.

End Handle.

Create HintDb kept.

#[local] Hint Resolve kept_ret kept_throw kept_fmap kept_member kept_performance_now
  kept_execute kept_getConfig kept_getConnection : kept.

Ltac kept :=
  cbv zeta;
  repeat first
    [ solve [eauto with kept]
    | apply kept_bind; [| intros ?]
    | apply kept_fmap
    | apply kept_try_catch; [| intros ?]
    | match goal with
      | |- keeps_handle (match ?x with _ => _ end) => destruct x
      end ].

Section HandleProgram.

Context {Server : Type} (drv : Driver Server).

Lemma kept_testConnectionImpl : keeps_handle (testConnectionImpl drv).
Proof. unfold testConnectionImpl. kept. Qed.

Lemma kept_withExactRowCount h t : keeps_handle (withExactRowCount drv h t).
Proof. unfold withExactRowCount. kept. Qed.

Lemma kept_listTablesImpl b : keeps_handle (listTablesImpl drv b).
Proof.
  unfold listTablesImpl. kept.
  apply kept_promise_all, kept_map, kept_withExactRowCount.
Qed.

Lemma kept_getSchemaImpl t : keeps_handle (getSchemaImpl drv t).
Proof. unfold getSchemaImpl. kept. Qed.

Lemma kept_getAllSchemasImpl : keeps_handle (getAllSchemasImpl drv).
Proof.
  unfold getAllSchemasImpl, getSchemaImpl_all. kept.
  all: apply kept_turn; intros x; repeat destruct x as [x ?]; kept.
Qed.

Lemma kept_runQueryImpl q a : keeps_handle (runQueryImpl drv q a).
Proof. unfold runQueryImpl. kept. Qed.

Hint Resolve kept_testConnectionImpl kept_listTablesImpl kept_getSchemaImpl
  kept_getAllSchemasImpl kept_runQueryImpl : kept.

Lemma kept_bind_ret {A B} (a : A) (k : A -> M Server B) :
  keeps_handle (k a) -> keeps_handle (mret a ≫= k).
Proof. intros H w h Hd. exact (H w h Hd). Qed.

Lemma kept_dispatch (t : TaskParams) :
  task t <> Some CHAT -> keeps_handle (dispatch drv (Some t)).
Proof.
  intros Hchat. unfold dispatch. unfold member at 1. apply kept_bind_ret.
  rewrite (bool_decide_eq_false_2 _ Hchat). kept.
Qed.

(** X5. A task other than chat, run with a handle memoized and without a
    configuration argument, keeps that handle, however the task ends: a
    failing statement does not drop the connection.  It neither opens nor
    ends a connection. *)
Theorem task_keeps_handle (t : TaskParams) (w : World Server) (h : Handle) :
  task t <> Some CHAT -> _db w = Some h ->
  let w' := fst (executeMySQLTask drv (Some t) None w) in
  _db w' = Some h
  /\ exists ev, trace w' = (trace w ++ ev)%list
                /\ forallb (fun e => negb (isConnectionEvent e)) ev = true.
Proof.
  intros Hchat Hdb.
  assert (H : keeps_handle (executeMySQLTask drv (Some t) None)).
  { unfold executeMySQLTask. pose proof (kept_dispatch t Hchat). kept. }
  exact (H w h Hdb).
Qed.

End HandleProgram.

(** ** The life of the connection and of the configuration *)

Section Lifecycle.

Context {Server : Type} (drv : Driver Server).

(** X6. The connection is memoized on success and on success only: after a
    successful [getConnection] the next call returns the same handle
    without a call to the driver; after a failed one the slot is empty and
    the next call asks the driver again. *)
Theorem getConnection_memoizes (w : World Server) :
  match getConnection drv w with
  | (w1, Ok h) => _db w1 = Some h /\ getConnection drv w1 = (w1, Ok h)
  | (w1, Throw e) =>
      _db w = None /\ _db w1 = None
      /\ trace (fst (getConnection drv w1))
         = (trace w1 ++ [EvConnect (connectOptions w)])%list
  end.
Proof.
  rewrite getConnection_run. destruct (_db w) as [h|] eqn:Hdb.
  - split; [exact Hdb | now apply getConnection_memo].
  - destruct (createConnection drv (connectOptions w) (server w)) as [sv [h|e]].
    + split; [reflexivity | now apply getConnection_memo].
    + split; [reflexivity |]. split; [exact Hdb |].
      pose proof (getConnection_frame drv (outside drv (EvConnect (connectOptions w)) sv w))
        as (_ & _ & _ & Ht & _).
      cbn [_db outside] in Ht. rewrite Hdb in Ht. exact Ht.
Qed.

(** X7. Opening and closing come in pairs: from a state without a handle,
    a connection that the server accepts and a close that follows leave no
    handle, the configuration as it was, and a record of one connection
    request and one end, of the handle that was given. *)
Theorem open_close_round_trip (w : World Server) (sv : Server) (h : Handle) :
  _db w = None ->
  createConnection drv (connectOptions w) (server w) = (sv, Ok h) ->
  let w' := fst ((getConnection drv;; closeConnection drv) w) in
  _db w' = None
  /\ _config w' = _config w
  /\ server w' = end_ drv h sv
  /\ trace w' = (trace w ++ [EvConnect (connectOptions w); EvEnd h])%list.
Proof.
  intros Hdb Hc. cbv zeta. rewrite run_bind, getConnection_run, Hdb, Hc.
  unfold closeConnection, db_end. munfold. cbn.
  repeat split. now rewrite <- app_assoc.
Qed.

Lemma spreadProp_assoc {A} (a b c : optional A) :
  spreadProp (spreadProp a b) c = spreadProp a (spreadProp b c).
Proof. destruct c, b; reflexivity. Qed.

Lemma spread_assoc (a b c : MySQLAgentConfig) :
  spread (spread a b) c = spread a (spread b c).
Proof.
  unfold spread. cbn. now rewrite !spreadProp_assoc.
Qed.

Lemma spread_empty (a : MySQLAgentConfig) : spread a emptyConfig = a.
Proof. destruct a. reflexivity. Qed.

(** X8. Reconfigurations compose: configuring with one set of overrides and
    then with another leaves the state that configuring once with the two
    merged leaves, the later overrides winning. *)
Theorem configureAgent_compose (c1 c2 : MySQLAgentConfig) (w : World Server) :
  (configureAgent drv c1;; configureAgent drv c2) w
  = configureAgent drv (spread c1 c2) w.
Proof.
  rewrite run_bind. unfold configureAgent, db_end. munfold.
  destruct (_db w) as [h|]; cbn; now rewrite spread_assoc.
Qed.

Lemma orElse_nonempty (a : option string) (d : string) : d <> "" -> orElse a d <> "".
Proof.
  intros Hd. destruct a as [s|]; simpl; [| exact Hd].
  destruct (String.eqb_spec s ""); [exact Hd | assumption].
Qed.

(** X9. The options of a connection are well formed whatever the overrides
    and the environment hold: either a URL that is not empty, and then the
    explicit one if there is one, or discrete fields with a host, a user
    and a database that are not empty; the URL is used whenever one is
    resolved. *)
Theorem connection_options_wellformed (w : World Server) :
  getConnectionConfig w = (w, Ok (connectOptions w))
  /\ match connectOptions w with
     | ByUri u =>
         u <> "" /\ u = mysqlUrl (resolveConfig (_config w) (env w))
         /\ (forall v, read (mysqlUrl (_config w)) = Some v -> v <> "" -> u = v)
     | ByFields host port user password database =>
         host <> "" /\ user <> "" /\ database <> ""
         /\ mysqlUrl (resolveConfig (_config w) (env w)) = ""
     end.
Proof.
  split; [reflexivity |].
  unfold connectOptions, connectionOptionsOf.
  destruct (String.eqb_spec (mysqlUrl (resolveConfig (_config w) (env w))) "") as [He|Hne];
    cbn [negb].
  - repeat split; try exact He; cbn; repeat apply orElse_nonempty; discriminate.
  - split; [exact Hne |]. split; [reflexivity |].
    intros v Hv Hvne. cbn. rewrite Hv. cbn.
    destruct (String.eqb_spec v ""); [contradiction | reflexivity].
Qed.

Lemma frame_task (t : option TaskParams) : frame (executeMySQLTask drv t None).
Proof.
  unfold executeMySQLTask. pose proof (frame_dispatch drv t). framed.
Qed.

(** X10. A configuration argument costs the connection: a task run with
    one, over a memoized handle, ends that handle before anything else,
    also when the argument is the empty object and changes no setting. *)
Theorem config_argument_ends_handle
    (t : option TaskParams) (c : MySQLAgentConfig) (w : World Server) (h : Handle) :
  _db w = Some h ->
  let w' := fst (executeMySQLTask drv t (Some c) w) in
  (exists rest, trace w' = (trace w ++ EvEnd h :: rest)%list)
  /\ _config w' = spread (_config w) c
  /\ (c = emptyConfig -> _config w' = _config w).
Proof.
  intros Hdb. cbv zeta.
  assert (Hrun : executeMySQLTask drv t (Some c) w
                 = executeMySQLTask drv t None (fst (configureAgent drv c w))).
  { unfold executeMySQLTask. rewrite !run_bind.
    pose proof (configureAgent_ok drv c w) as Hok.
    destruct (configureAgent drv c w) as [w1 r]. cbn in Hok. now subst r. }
  rewrite Hrun.
  destruct (frame_task t (fst (configureAgent drv c w))) as (Hc & _ & ev & Ht).
  assert (Hcfg : _config (fst (configureAgent drv c w)) = spread (_config w) c
                 /\ trace (fst (configureAgent drv c w)) = (trace w ++ [EvEnd h])%list).
  { unfold configureAgent, db_end. munfold. rewrite Hdb. cbn. now split. }
  destruct Hcfg as [Hcfg Htr].
  split; [| split].
  - exists ev. now rewrite Ht, Htr, <- app_assoc.
  - now rewrite Hc.
  - intros ->. now rewrite Hc, Hcfg, spread_empty.
Qed.

End Lifecycle.

(** ** The executors *)

Section Executors.

Context {Server : Type} (drv : Driver Server).

(** X11. [getSchemaImpl] obtains the connection first and fails with its
    error when there is none.  With the connection, the table name reaches
    the server as a bound parameter and never inside the text of a
    statement: the calls are the three fixed statements, in the order
    columns, indexes, foreign keys, each with the name as its one
    parameter and each on the server as the one before left it; the first
    that is rejected is the last one made, and its error is the outcome;
    when none is rejected the result holds the three answers under the name
    that was given. *)
Theorem getSchemaImpl_statements (tableName : option value) (w : World Server) :
  let w' := fst (getSchemaImpl drv tableName w) in
  let result := snd (getSchemaImpl drv tableName w) in
  match getConnection drv w with
  | (w1, Throw e) => w' = w1 /\ result = Throw e
  | (w1, Ok h) =>
      let call := fun text => EvExecute h text [tableName] in
      let answer1 := execute drv h SQL_COLUMNS [tableName] (server w1) in
      let answer2 := execute drv h SQL_INDEXES [tableName] (fst answer1) in
      let answer3 := execute drv h SQL_FOREIGN_KEYS [tableName] (fst answer2) in
      match snd answer1, snd answer2, snd answer3 with
      | Throw e, _, _ =>
          result = Throw e
          /\ trace w' = (trace w1 ++ [call SQL_COLUMNS])%list
          /\ server w' = fst answer1
      | Ok _, Throw e, _ =>
          result = Throw e
          /\ trace w' = (trace w1 ++ [call SQL_COLUMNS; call SQL_INDEXES])%list
          /\ server w' = fst answer2
      | Ok _, Ok _, Throw e =>
          result = Throw e
          /\ trace w' = (trace w1 ++ [call SQL_COLUMNS; call SQL_INDEXES;
                                      call SQL_FOREIGN_KEYS])%list
          /\ server w' = fst answer3
      | Ok colRows, Ok idxRows, Ok fkRows =>
          result = Ok {| table := tableName; columns := colRows;
                         indexes := idxRows; foreign_keys := fkRows |}
          /\ trace w' = (trace w1 ++ [call SQL_COLUMNS; call SQL_INDEXES;
                                      call SQL_FOREIGN_KEYS])%list
          /\ server w' = fst answer3
      end
  end.
Proof.
  cbv zeta. rewrite getSchemaImpl_run.
  destruct (getConnection drv w) as [w1 [h|e]]; [| now split].
  destruct (execute drv h SQL_COLUMNS [tableName] (server w1)) as [sv1 [r1|e1]];
    cbn [fst snd]; [| now repeat split].
  destruct (execute drv h SQL_INDEXES [tableName] sv1) as [sv2 [r2|e2]];
    cbn [fst snd]; [| cbn; rewrite <- !app_assoc; now repeat split].
  destruct (execute drv h SQL_FOREIGN_KEYS [tableName] sv2) as [sv3 [r3|e3]];
    cbn; rewrite <- !app_assoc; now repeat split.
Qed.

Lemma getSchemaImpl_table (tableName : option value) (w : World Server) (s : TableSchema) :
  snd (getSchemaImpl drv tableName w) = Ok s -> table s = tableName.
Proof.
  unfold getSchemaImpl. rewrite run_bind.
  destruct (getConnection drv w) as [w0 [h|e]]; [| discriminate].
  rewrite run_bind. unfold db_execute at 1.
  destruct (execute drv h SQL_COLUMNS [tableName] _) as [sv1 [r1|e1]]; [| discriminate].
  rewrite run_bind. unfold db_execute at 1.
  destruct (execute drv h SQL_INDEXES [tableName] _) as [sv2 [r2|e2]]; [| discriminate].
  rewrite run_bind. unfold db_execute at 1.
  destruct (execute drv h SQL_FOREIGN_KEYS [tableName] _) as [sv3 [r3|e3]]; [| discriminate].
  cbn. intros Hs. injection Hs as <-. reflexivity.
Qed.


Lemma getConnection_holds (w w1 : World Server) (h : Handle) :
  getConnection drv w = (w1, Ok h) -> _db w1 = Some h.
Proof.
  rewrite getConnection_run. destruct (_db w) as [h0|] eqn:Hdb.
  - intros H. injection H as <- <-. exact Hdb.
  - destruct (createConnection drv (connectOptions w) (server w)) as [sv [h1|e]];
      intros H; [injection H as <- <-; reflexivity | discriminate H].
Qed.

(** A turn always completes; what failed is in its result. *)
Lemma turn_total {X Y} (step : X -> M Server Y) (calls : list (Result X))
    (rejection : option exn) (w : World Server) :
  exists w' p, turn step calls rejection w = (w', Ok p).
Proof.
  revert rejection w. induction calls as [|[x|e] calls IH]; intros rejection w;
    cbn [turn].
  - eexists _, _. reflexivity.
  - rewrite run_bind. unfold settle. destruct (step x w) as [w1 r].
    rewrite run_bind.
    match goal with
    | |- context [turn step calls ?rej ?w0] => destruct (IH rej w0) as (w2 & p & ->)
    end.
    eexists _, _. reflexivity.
  - rewrite run_bind. destruct (IH rejection w) as (w2 & p & ->).
    eexists _, _. reflexivity.
Qed.

(** A rejection is kept to the end of the turn. *)
Lemma turn_rejection {X Y} (step : X -> M Server Y) (calls : list (Result X))
    (rejection : option exn) (w w' : World Server) (calls' : list (Result Y)) :
  turn step calls rejection w = (w', Ok (calls', None)) -> rejection = None.
Proof.
  revert rejection w w' calls'.
  induction calls as [|[x|e] calls IH]; intros rejection w w' calls'; cbn [turn].
  - intros H. now injection H.
  - rewrite run_bind. unfold settle. destruct (step x w) as [w1 r].
    rewrite run_bind.
    destruct (turn step calls _ w1) as [w2 [[l rej']|e]] eqn:E; [| discriminate].
    intros H. injection H as _ _ Hr. cbn in Hr. subst rej'.
    apply IH in E. destruct rejection; [destruct r; discriminate E | reflexivity].
  - rewrite run_bind.
    destruct (turn step calls rejection w) as [w2 [[l rej']|e0]] eqn:E; [| discriminate].
    intros H. injection H as _ _ Hr. cbn in Hr. subst rej'. now apply IH in E.
Qed.

Lemma turn_ext {X Y} (step step' : X -> M Server Y) (calls : list (Result X))
    (rejection : option exn) (w : World Server) :
  (forall x w0, step x w0 = step' x w0) ->
  turn step calls rejection w = turn step' calls rejection w.
Proof.
  intros Hs. revert rejection w.
  induction calls as [|[x|e] calls IH]; intros rejection w; cbn [turn].
  - reflexivity.
  - rewrite !run_bind. unfold settle. rewrite Hs. destruct (step' x w) as [w1 r].
    rewrite !run_bind. now rewrite IH.
  - rewrite !run_bind. now rewrite IH.
Qed.

(** The first turn of the calls of [getSchemaImpl]: each finds the handle
    that [getAllSchemasImpl] holds. *)
Lemma turn_getConnection (tableNames : list (option value)) (h : Handle)
    (w : World Server) :
  _db w = Some h ->
  turn (fun tableName => db ← getConnection drv; mret (tableName, db))
       (map Ok tableNames) None w
  = (w, Ok (map (fun tableName => Ok (tableName, h)) tableNames, None)).
Proof.
  intros Hdb. induction tableNames as [|n ns IH]; cbn [map turn]; [reflexivity |].
  rewrite run_bind. unfold settle. rewrite run_bind, (getConnection_memo drv _ _ Hdb).
  cbn. rewrite run_bind, IH. reflexivity.
Qed.

(** A turn in which every call hands over one statement, and none is
    rejected: the statements go out in the order of the calls. *)
Lemma turn_execute {X Y} (db : X -> Handle) (name : X -> option value)
    (next : X -> ExecResult -> Y) (text : string) (xs : list X)
    (w w' : World Server) (calls' : list (Result Y)) :
  turn (fun x => r ← db_execute drv (db x) text [name x]; mret (next x r))
       (map Ok xs) None w = (w', Ok (calls', None)) ->
  exists ys,
    calls' = map Ok ys
    /\ Forall2 (fun x y => exists r, y = next x r) xs ys
    /\ trace w' = (trace w ++ map (fun x => EvExecute (db x) text [name x]) xs)%list
    /\ _db w' = _db w.
Proof.
  revert w w' calls'. induction xs as [|x xs IH]; intros w w' calls'; cbn [map turn].
  - intros H. injection H as <- <-. exists []. cbn. rewrite app_nil_r.
    repeat split. constructor.
  - rewrite run_bind. unfold settle. rewrite run_bind. unfold db_execute at 1.
    destruct (execute drv (db x) text [name x] (server w)) as [sv [r|e]].
    + cbn [mret M_ret]. rewrite run_bind.
      destruct (turn _ (map Ok xs) None _) as [w2 [[l rej]|e]] eqn:E; [| discriminate].
      intros H. injection H as <- <- Hr. cbn in Hr. subst rej.
      destruct (IH _ _ _ E) as (ys & -> & HF & Ht & Hd).
      exists (next x r :: ys). cbn. split; [reflexivity |].
      split; [constructor; [now exists r | exact HF] |].
      split; [rewrite Ht; cbn; now rewrite <- app_assoc | rewrite Hd; reflexivity].
    + rewrite run_bind.
      destruct (turn _ (map Ok xs) (Some e) _) as [w2 [[l rej]|e0]] eqn:E;
        [| discriminate].
      intros H. injection H as _ _ Hr. cbn in Hr. subst rej.
      apply turn_rejection in E. discriminate E.
Qed.

Lemma Forall2_map_eq {X Y Z} (R : X -> Y -> Prop) (f : X -> Z) (g : Y -> Z)
    (xs : list X) (ys : list Y) :
  Forall2 R xs ys -> (forall x y, R x y -> f x = g y) -> map f xs = map g ys.
Proof.
  intros HF HR. induction HF as [|x y xs ys Hxy _ IH]; [reflexivity |].
  cbn. f_equal; [now apply HR | exact IH].
Qed.

Lemma fulfilled_Ok {A} (l : list A) : fulfilled (map Ok l) = l.
Proof. induction l as [|a l IH]; [reflexivity | cbn; now rewrite IH]. Qed.

(** With one table, the turns are the body of [getSchemaImpl]. *)
Lemma getSchemaImpl_all_single (tableName : option value) (w : World Server) :
  getSchemaImpl_all drv [tableName] w
  = ((fun schema => [schema]) <$> getSchemaImpl drv tableName) w.
Proof.
  rewrite run_fmap, getSchemaImpl_run.
  unfold getSchemaImpl_all. cbn [map turn]. unfold settle, db_execute. munfold.
  destruct (getConnection drv w) as [w1 [h|e]];
    repeat (cbn; unfold settle, db_execute; munfold); [| reflexivity].
  destruct (execute drv h SQL_COLUMNS [tableName] (server w1)) as [sv1 [r1|e1]];
    repeat (cbn; unfold settle, db_execute; munfold); [| reflexivity].
  destruct (execute drv h SQL_INDEXES [tableName] sv1) as [sv2 [r2|e2]];
    repeat (cbn; unfold settle, db_execute; munfold); [| reflexivity].
  destruct (execute drv h SQL_FOREIGN_KEYS [tableName] sv2) as [sv3 [r3|e3]];
    repeat (cbn; unfold settle, db_execute; munfold); reflexivity.
Qed.

(** X12. When the schemas of all tables come back, there is one per base
    table the server listed, in the order it listed them, each under the
    name of its table; and the statements went out in turns, not table by
    table: after the listing, the columns statement of every table in
    listing order, then the indexes statement of every table, then the
    foreign keys statement of every table. *)
Theorem getAllSchemasImpl_order (w w' : World Server) (l : list TableSchema) :
  getAllSchemasImpl drv w = (w', Ok l) ->
  exists w1 h ts,
    getConnection drv w = (w1, Ok h)
    /\ snd (execute drv h SQL_BASE_TABLES [] (server w1)) = Ok (Rows ts)
    /\ map table l = map (fun t : Row => t !! "name") ts
    /\ let sent := fun text =>
         map (fun t : Row => EvExecute h text [t !! "name"]) ts in
       trace w' = (trace w1 ++ EvExecute h SQL_BASE_TABLES []
                     :: sent SQL_COLUMNS ++ sent SQL_INDEXES
                        ++ sent SQL_FOREIGN_KEYS)%list.
Proof.
  unfold getAllSchemasImpl. rewrite run_bind.
  destruct (getConnection drv w) as [w1 [h|e]] eqn:Hc; [| discriminate].
  apply getConnection_holds in Hc.
  rewrite run_bind. unfold db_execute at 1.
  destruct (execute drv h SQL_BASE_TABLES [] (server w1)) as [sv [[ts|n]|e]] eqn:He;
    try discriminate.
  intros H. exists w1, h, ts. split; [reflexivity |]. split; [now rewrite He |].
  clear He. unfold getSchemaImpl_all in H.
  set (w2 := outside drv (EvExecute h SQL_BASE_TABLES []) sv w1) in H.
  assert (Hdb : _db w2 = Some h) by exact Hc.
  rewrite run_bind, (turn_getConnection _ h w2 Hdb) in H. cbn [fst snd] in H.
  rewrite map_map in H.
  rewrite run_bind in H.
  rewrite (turn_ext _ (fun x => r ← db_execute drv (snd x) SQL_COLUMNS [fst x];
                                mret (fst x, snd x, r))) in H
    by (intros [? ?] ?; reflexivity).
  rewrite <- (map_map (fun t : Row => (t !! "name", h)) Ok) in H.
  destruct (turn _ _ None w2) as [w3 [[c1 r1]|e]] eqn:E1; [| discriminate H].
  cbn [fst snd] in H. rewrite run_bind in H.
  destruct (turn _ c1 r1 w3) as [w4 [[c2 r2]|e]] eqn:E2; [| discriminate H].
  cbn [fst snd] in H. rewrite run_bind in H.
  destruct (turn _ c2 r2 w4) as [w5 [[c3 r3]|e]] eqn:E3; [| discriminate H].
  cbn [fst snd] in H.
  destruct r3 as [e3|]; [discriminate H |]. injection H as <- <-.
  pose proof (turn_rejection _ _ _ _ _ _ E3) as ->.
  pose proof (turn_rejection _ _ _ _ _ _ E2) as ->.
  destruct (turn_execute snd fst (fun x r => (fst x, snd x, r)) _ _ _ _ _ E1)
    as (y1 & -> & HF1 & Ht1 & Hd1).
  rewrite (turn_ext _ (fun x => r ← db_execute drv (snd (fst x)) SQL_INDEXES
                                     [fst (fst x)];
                                mret (fst (fst x), snd (fst x), snd x, r))) in E2
    by (intros [[? ?] ?] ?; reflexivity).
  destruct (turn_execute (fun x => snd (fst x)) (fun x => fst (fst x))
              (fun x r => (fst (fst x), snd (fst x), snd x, r)) _ _ _ _ _ E2)
    as (y2 & -> & HF2 & Ht2 & Hd2).
  rewrite (turn_ext _ (fun x => r ← db_execute drv (snd (fst (fst x))) SQL_FOREIGN_KEYS
                                     [fst (fst (fst x))];
                                mret {| table := fst (fst (fst x));
                                        columns := snd (fst x);
                                        indexes := snd x;
                                        foreign_keys := r |})) in E3
    by (intros [[[? ?] ?] ?] ?; reflexivity).
  destruct (turn_execute (fun x => snd (fst (fst x))) (fun x => fst (fst (fst x)))
              (fun x r => {| table := fst (fst (fst x)); columns := snd (fst x);
                             indexes := snd x; foreign_keys := r |}) _ _ _ _ _ E3)
    as (y3 & -> & HF3 & Ht3 & Hd3).
  rewrite fulfilled_Ok.
  assert (H1 : map (fun y => (fst (fst y), snd (fst y))) y1
               = map (fun t : Row => (t !! "name", h)) ts).
  { symmetry. rewrite <- (map_id (map _ ts)).
    apply (Forall2_map_eq _ _ _ _ _ HF1). intros x y [r ->]. now destruct x. }
  assert (H2 : map (fun y => (fst (fst (fst y)), snd (fst (fst y)))) y2
               = map (fun t : Row => (t !! "name", h)) ts).
  { rewrite <- H1. symmetry.
    apply (Forall2_map_eq _ _ _ _ _ HF2). intros x y [r ->]. reflexivity. }
  split.
  - transitivity (map fst (map (fun t : Row => (t !! "name", h)) ts));
      [| now rewrite map_map].
    rewrite <- H2, map_map. symmetry.
    apply (Forall2_map_eq _ _ _ _ _ HF3). intros x y [r ->]. reflexivity.
  - cbv zeta. rewrite Ht3, Ht2, Ht1. subst w2. cbn [trace outside].
    rewrite <- !app_assoc. cbn [app]. f_equal. f_equal.
    rewrite map_map. cbn [fst snd]. f_equal.
    assert (Hev : forall text,
              map (fun t : Row => EvExecute h text [t !! "name"]) ts
              = map (fun p : option value * Handle => EvExecute (snd p) text [fst p])
                    (map (fun t : Row => (t !! "name", h)) ts))
      by (intros text; now rewrite map_map).
    rewrite !Hev, <- H1 at 1. rewrite <- H2. rewrite !map_map. reflexivity.
Qed.




End Executors.

(** ** Queries that read *)

Section Reads.

Context {Server : Type} (drv : Driver Server).

(** A statement that is not a write, over a memoized handle: one call of
    [execute], on the limited statement, between two readings of the
    clock. *)
Lemma runQueryImpl_read (sql : string) (aw : option bool) (w : World Server) (h : Handle) :
  isWriteQuery sql = false -> _db w = Some h ->
  runQueryImpl drv (Some sql) aw w =
    (let finalSql := enforceLimit sql (rowLimit (resolveConfig (_config w) (env w))) in
     let '(sv, r) := execute drv h finalSql [] (server w) in
     let w2 := outside drv (EvExecute h finalSql []) sv (tick drv w) in
     match r with
     | Ok res =>
         (tick drv w2,
          Ok {| rows := arrayOrEmpty res; row_count := length (arrayOrEmpty res);
                query_duration_ms := round2 (now_ms (clock w2) - now_ms (clock w)) |})
     | Throw e => (w2, Throw e)
     end).
Proof.
  intros Hw Hdb. unfold runQueryImpl, getConfig. munfold.
  rewrite (getConnection_memo drv _ _ Hdb), Hw. cbv zeta.
  unfold performance_now, db_execute. cbn [server tick].
  destruct (execute drv h _ [] (server w)) as [sv [res|e]]; reflexivity.
Qed.

(** X14. A statement that is not classified as a write is run whatever the
    caller's flag says; over a memoized handle it is handed to the server
    once, limited, and a result that is no array of rows (a header) is
    reported as no rows. *)
Theorem read_query_ignores_flags (sql : string) (w : World Server) :
  isWriteQuery sql = false ->
  (forall a b, runQueryImpl drv (Some sql) a w = runQueryImpl drv (Some sql) b w)
  /\ (forall a h, _db w = Some h ->
        let finalSql := enforceLimit sql (rowLimit (resolveConfig (_config w) (env w))) in
        trace (fst (runQueryImpl drv (Some sql) a w))
          = (trace w ++ [EvExecute h finalSql []])%list
        /\ forall sv n, execute drv h finalSql [] (server w) = (sv, Ok (Header n)) ->
             exists q, snd (runQueryImpl drv (Some sql) a w)
                       = Ok {| rows := []; row_count := 0; query_duration_ms := q |}).
Proof.
  intros Hw. split.
  - intros a b. unfold runQueryImpl, getConfig. munfold.
    destruct (getConnection drv w) as [w1 [h|e]]; [| reflexivity]. now rewrite Hw.
  - intros a h Hdb. cbv zeta. rewrite (runQueryImpl_read sql a w h Hw Hdb). cbv zeta.
    destruct (execute drv h _ [] (server w)) as [sv [res|e]]; cbn [fst snd trace tick outside].
    + split; [reflexivity |]. intros sv' n H. injection H as _ ->. eexists. reflexivity.
    + split; [reflexivity |]. intros sv' n H. discriminate H.
Qed.

Lemma now_ms_mono (a b : N) : (a <= b)%N -> (now_ms a <= now_ms b)%Q.
Proof.
  intros H. unfold now_ms, Qle, Qdiv, Qmult, Qinv, inject_Z. simpl. lia.
Qed.

Lemma round2_mono (x y : Q) : (x <= y)%Q -> (round2 x <= round2 y)%Q.
Proof.
  intros H. unfold round2, Math_round.
  assert (Hf : (Qfloor (x * 100 + (1 # 2)) <= Qfloor (y * 100 + (1 # 2)))%Z).
  { apply Qfloor_resp_le. apply Qplus_le_compat; [| apply Qle_refl].
    apply Qmult_le_compat_r; [exact H | discriminate]. }
  unfold Qdiv. apply Qmult_le_compat_r; [| discriminate].
  now rewrite <- Zle_Qle.
Qed.

(** When [runQueryImpl] returns, its duration is that of an interval of
    the clock inside the run. *)
Lemma runQueryImpl_timing (sql : option string) (aw : option bool)
    (w w3 : World Server) (qr : QueryResult) :
  runQueryImpl drv sql aw w = (w3, Ok qr) ->
  exists ca cb,
    (clock w <= ca)%N /\ (ca <= cb)%N /\ (cb <= clock w3)%N
    /\ query_duration_ms qr = round2 (now_ms cb - now_ms ca).
Proof.
  unfold runQueryImpl, getConfig. munfold.
  pose proof (mono_getConnection drv w) as Hm.
  destruct (getConnection drv w) as [w1 [h|e]]; [| discriminate]. cbn [fst] in Hm.
  destruct sql as [sql|]; [| discriminate].
  assert (Hgate : forall g : M Server unit,
            (g = mret tt \/ exists e, g = throw e) ->
            (let (w', r) := g w1 in
             match r with
             | Ok _ =>
                 let (w'0, r0) := performance_now drv w' in
                 match r0 with
                 | Ok a0 =>
                     let (w'1, r1) :=
                       db_execute drv h
                         (enforceLimit sql (rowLimit (resolveConfig (_config w) (env w))))
                         [] w'0 in
                     match r1 with
                     | Ok a1 =>
                         let (w'2, r2) := performance_now drv w'1 in
                         match r2 with
                         | Ok a2 =>
                             (w'2, Ok {| rows := arrayOrEmpty a1;
                                         row_count := length (arrayOrEmpty a1);
                                         query_duration_ms := round2 (a2 - a0) |})
                         | Throw e => (w'2, Throw e)
                         end
                     | Throw e => (w'1, Throw e)
                     end
                 | Throw e => (w'0, Throw e)
                 end
             | Throw e => (w', Throw e)
             end) = (w3, Ok qr) ->
            exists ca cb,
              (clock w <= ca)%N /\ (ca <= cb)%N /\ (cb <= clock w3)%N
              /\ query_duration_ms qr = round2 (now_ms cb - now_ms ca)).
  { intros g [-> | [e ->]]; [| discriminate]. munfold.
    unfold performance_now, db_execute. cbn [server tick].
    destruct (execute drv h _ [] (server w1)) as [sv [res|e]]; [| discriminate].
    intros H. injection H as <- <-.
    exists (clock w1), (clock (outside drv (EvExecute h
              (enforceLimit sql (rowLimit (resolveConfig (_config w) (env w)))) [])
              sv (tick drv w1))).
    cbn. repeat split; try lia. }
  apply Hgate.
  destruct (isWriteQuery sql); [| now left].
  destruct (negb (default false aw)); [right; eauto |].
  destruct (negb (allowWrite (resolveConfig (_config w) (env w)))); [right; eauto | now left].
Qed.

(** X15. The duration a query reports lies within the duration of the task
    that ran it: for every query task that succeeds, the [duration_ms] of
    the result is not negative and not above the [duration_ms] of the
    envelope. *)
Theorem query_duration_within_envelope
    (sql : option string) (aw : option bool) (w w' : World Server)
    (r : AgentResult) (qr : QueryResult) :
  executeMySQLTask drv (Some (queryTask sql aw)) None w = (w', Ok r) ->
  data r = Some (DQuery qr) ->
  exists d,
    duration_ms r = Some d
    /\ (0 <= query_duration_ms qr)%Q /\ (query_duration_ms qr <= d)%Q.
Proof.
  rewrite executeMySQLTask_run, dispatch_queryTask, run_fmap.
  pose proof (runQueryImpl_timing sql aw (tick drv w)) as Ht.
  destruct (runQueryImpl drv sql aw (tick drv w)) as [w3 [x|e]].
  - intros H Hd. injection H as _ <-. cbn in Hd. injection Hd as <-.
    destruct (Ht w3 x eq_refl) as (ca & cb & H1 & H2 & H3 & ->).
    eexists. split; [reflexivity |].
    pose proof (mono_tick drv w) as H0.
    split; [apply round2_nonneg, now_ms_le; exact H2 |].
    apply round2_mono.
    apply Qplus_le_compat; [apply now_ms_mono; exact H3 |].
    apply Qopp_le_compat, now_ms_mono. lia.
  - intros H Hd. injection H as _ <-. discriminate Hd.
Qed.

(** X16. A request whose tag is none of the six tasks is refused by name
    and touches nothing: the envelope has success false and the error
    [Unknown task: ] followed by the tag ([undefined] when there is none),
    and no call leaves the program. *)
Theorem unknown_task (tag : option string) (ps : option Params) (w : World Server) :
  (forall t, In t TASKS -> tag <> Some t) ->
  exists w' r,
    executeMySQLTask drv (Some {| task := tag; params := ps |}) None w = (w', Ok r)
    /\ success r = false
    /\ error r = Some ("Unknown task: " +:+ default "undefined" tag)
    /\ trace w' = trace w /\ server w' = server w /\ _db w' = _db w.
Proof.
  intros Hnot. rewrite executeMySQLTask_run.
  assert (Hd : dispatch drv (Some {| task := tag; params := ps |}) (tick drv w)
               = (tick drv w, Throw (JsError ("Unknown task: " +:+ default "undefined" tag)))).
  { unfold dispatch, member. munfold. cbn [task].
    rewrite !bool_decide_eq_false_2 by (apply Hnot; simpl; tauto). reflexivity. }
  rewrite Hd. eexists _, _. split; [reflexivity |]. repeat split.
Qed.

Lemma runQueryImpl_read_executed (sql : string) (aw : option bool)
    (w w1 : World Server) (h : Handle) :
  isWriteQuery sql = false -> getConnection drv w = (w1, Ok h) ->
  executed (trace (fst (runQueryImpl drv (Some sql) aw w)))
  = (executed (trace w1)
     ++ [enforceLimit sql (rowLimit (resolveConfig (_config w) (env w)))])%list.
Proof.
  intros Hw Hc. unfold runQueryImpl, getConfig. munfold.
  rewrite Hc, Hw. cbv zeta.
  unfold performance_now, db_execute. cbn.
  destruct (execute drv h _ [] (server w1)) as [sv [res|e]]; cbn;
    now rewrite executed_app.
Qed.

(** X17. A row limit in the environment that does not start with a digit
    resolves to NaN, not to the fallback of 1000, and reaches the server:
    with no override of the limit and a connection to be had, a SELECT
    without a limit is sent with [ LIMIT NaN] appended. *)
Theorem malformed_row_limit
    (sql s : string) (aw : option bool) (w : World Server) :
  connection_available drv w ->
  read (rowLimit (_config w)) = None ->
  env w !! "MYSQL_ROW_LIMIT" = Some s -> s <> "" -> parseInt s = NaN ->
  begins_with_ci "SELECT" (trim sql) ->
  ~ contains " LIMIT " (toUpperCase (trim sql)) ->
  rowLimit (resolveConfig (_config w) (env w)) = NaN
  /\ rowLimit (resolveConfig (_config w) (env w)) <> Num 1000
  /\ executed (trace (fst (executeMySQLTask drv (Some (queryTask (Some sql) aw)) None w)))
     = (executed (trace w) ++ [trim sql +:+ " LIMIT NaN"])%list.
Proof.
  intros Hav Hov Henv Hs Hnan Hsel Hlim.
  assert (Hrl : rowLimit (resolveConfig (_config w) (env w)) = NaN).
  { cbn. rewrite Hov, Henv. cbn.
    destruct (String.eqb_spec s ""); [contradiction | exact Hnan]. }
  split; [exact Hrl |]. split; [rewrite Hrl; discriminate |].
  assert (Hw : isWriteQuery sql = false).
  { apply select_not_write. now apply matchLiteral_i_iff. }
  assert (Hfinal : enforceLimit sql NaN = trim sql +:+ " LIMIT NaN").
  { destruct (enforceLimit_cases sql NaN) as [(_ & _ & ->) | [[Hc | Hc] _]].
    - reflexivity.
    - apply matchLiteral_i_iff in Hsel. congruence.
    - apply includes_iff in Hc. contradiction. }
  rewrite executeMySQLTask_run, dispatch_queryTask, run_fmap.
  destruct (getConnection_outcome drv (tick drv w))
    as [(w1 & h & Hc & _ & Hex) | (w1 & sv & e & _ & _ & _ & Hnav & _)];
    [| exfalso; apply Hnav; exact Hav].
  pose proof (runQueryImpl_read_executed sql aw (tick drv w) w1 h Hw Hc) as Hrun.
  change (resolveConfig (_config (tick drv w)) (env (tick drv w)))
    with (resolveConfig (_config w) (env w)) in Hrun.
  rewrite Hrl, Hfinal, Hex in Hrun. cbn [trace tick] in Hrun.
  destruct (runQueryImpl drv (Some sql) aw (tick drv w)) as [w3 [x|e]];
    cbn [fst trace tick] in *; exact Hrun.
Qed.

End Reads.

(** ** The tools *)

Section ToolFacts.

Context {Server : Type} (drv : Driver Server).

Variable JSON_stringify : ToolPayload -> string.

(** A tool is its executor under a [try]: the text of the result, or the
    text of an error payload. *)
Lemma tool_run {A} (impl : M Server A) (P : A -> ToolPayload) (tb : option string)
    (w : World Server) :
  try_catch (x ← impl; mret (JSON_stringify (P x)))
            (fun error => mret (JSON_stringify (PError (errorText error) tb))) w
  = toolReply JSON_stringify impl P tb w.
Proof.
  unfold try_catch, toolReply. rewrite run_bind.
  destruct (impl w) as [w1 [x|e]]; reflexivity.
Qed.

(** X18. No tool throws: each of the five returns a text whatever its
    executor does, the text of the executor's result when it returned and
    of an error payload with the message of what was thrown when it did
    not ([get_schema] adds the table it was asked for); and no tool changes
    the configuration overrides. *)
Theorem tools_never_throw (w : World Server) :
  testConnectionTool drv JSON_stringify w
    = toolReply JSON_stringify (testConnectionImpl drv) PConnected None w
  /\ (forall b, listTablesTool drv JSON_stringify b w
                = toolReply JSON_stringify (listTablesImpl drv (Some b)) PTables None w)
  /\ (forall t, getSchemaTool drv JSON_stringify t w
                = toolReply JSON_stringify (getSchemaImpl drv (Some (VString t)))
                    PSchema (Some t) w)
  /\ getAllSchemasTool drv JSON_stringify w
      = toolReply JSON_stringify (getAllSchemasImpl drv) PSchemas None w
  /\ (forall q a, runQueryTool drv JSON_stringify q a w
                  = toolReply JSON_stringify (runQueryImpl drv (Some q) (Some a))
                      PQuery None w)
  /\ (forall b t q a,
        _config (fst (testConnectionTool drv JSON_stringify w)) = _config w
        /\ _config (fst (listTablesTool drv JSON_stringify b w)) = _config w
        /\ _config (fst (getSchemaTool drv JSON_stringify t w)) = _config w
        /\ _config (fst (getAllSchemasTool drv JSON_stringify w)) = _config w
        /\ _config (fst (runQueryTool drv JSON_stringify q a w)) = _config w).
Proof.
  unfold testConnectionTool, listTablesTool, getSchemaTool, getAllSchemasTool,
    runQueryTool.
  repeat split; intros; rewrite ?tool_run; try reflexivity; unfold toolReply; cbn [fst].
  - exact (proj1 (frame_testConnectionImpl drv w)).
  - exact (proj1 (frame_listTablesImpl drv (Some b) w)).
  - exact (proj1 (frame_getSchemaImpl drv (Some (VString t)) w)).
  - exact (proj1 (frame_getAllSchemasImpl drv w)).
  - exact (proj1 (frame_runQueryImpl drv (Some q) (Some a) w)).
Qed.

(** X19. The gate holds for the agent's tool as for a task: a
    write-classified statement sent through [run_query] without
    [allow_write], or under a configuration that does not enable writes,
    comes back as an error payload and is not executed; with a connection
    at hand the message is the one of the flag that is missing, the tool's
    own first. *)
Theorem runQueryTool_gate (sql : string) (allow_write : bool) (w : World Server) :
  isWriteQuery sql = true ->
  allow_write = false \/ writeEnabled w = false ->
  exists w' msg,
    runQueryTool drv JSON_stringify sql allow_write w
      = (w', Ok (JSON_stringify (PError msg None)))
    /\ executed (trace w') = executed (trace w)
    /\ (connection_available drv w ->
          msg = if allow_write then CONFIG_GATE else CALLER_GATE).
Proof.
  intros Hw Hg. unfold runQueryTool. rewrite tool_run. unfold toolReply.
  rewrite (runQueryImpl_gate drv sql (Some allow_write) w Hw Hg).
  destruct (getConnection_outcome drv w)
    as [(w1 & h & Hc & Hav & Hex) | (w1 & sv & e & Hc & Hdb & Hcc & Hnav & Hex)];
    rewrite Hc; cbn [fst snd]; eexists _, _; (split; [reflexivity |]);
    (split; [exact Hex |]); intros Hav'.
  - reflexivity.
  - contradiction.
Qed.

End ToolFacts.

(** ** The connection test and the chat task *)

Section Delegation.

Context {Server : Type} (drv : Driver Server).

(** X20. The connection test reads the first row of the one statement it
    sends: with a connection at hand and the statement answered, it
    returns the three columns of that row (a column the row lacks is left
    undefined), and an answer without a first row is a [TypeError], not an
    empty result.  Nothing else is executed. *)
Theorem testConnectionImpl_first_row (w w1 : World Server) (h : Handle)
    (sv : Server) (r : ExecResult) :
  getConnection drv w = (w1, Ok h) ->
  execute drv h SQL_TEST_CONNECTION [] (server w1) = (sv, Ok r) ->
  exists w',
    testConnectionImpl drv w
      = (w', match firstRow r with
             | Some info => Ok {| version := info !! "version";
                                  database := info !! "db_name";
                                  user := info !! "db_user" |}
             | None => Throw (TypeError_undefined "info.version")
             end)
    /\ trace w' = (trace w1 ++ [EvExecute h SQL_TEST_CONNECTION []])%list
    /\ executed (trace w') = (executed (trace w) ++ [SQL_TEST_CONNECTION])%list.
Proof.
  intros Hc He.
  assert (Hex : executed (trace w1) = executed (trace w)).
  { destruct (getConnection_outcome drv w)
      as [(w2 & h2 & Hc2 & _ & Hex) | (w2 & sv2 & e & Hc2 & _)];
      rewrite Hc in Hc2; [injection Hc2 as <- <-; exact Hex | discriminate Hc2]. }
  unfold testConnectionImpl. rewrite run_bind, Hc, run_bind.
  unfold db_execute at 1. rewrite He.
  eexists. split; [| split].
  - destruct (firstRow r) as [info|]; reflexivity.
  - destruct (firstRow r); reflexivity.
  - destruct (firstRow r); cbn [fst trace outside];
      rewrite executed_app, Hex; reflexivity.
Qed.

Lemma dispatch_chat (p : Params) (w : World Server) :
  dispatch drv (Some {| task := Some CHAT; params := Some p |}) w =
  (agent ← createAgent;
   config ← getConfig;
   DFinalOutput <$> run_agent drv agent (message p) (maxTurns config)) w.
Proof. reflexivity. Qed.

(** X21. The chat task is handed to the runtime whole: [runMySQLAgent]
    makes one call, to the runtime, with the prompt, the turn limit of the
    resolved configuration and an agent that carries the resolved model
    and, in its instructions, the resolved row limit; it sends nothing to
    the server itself, and its result is the runtime's final output, or
    the message of what the runtime threw. *)
Theorem runMySQLAgent_delegates (prompt : option string) (w : World Server) :
  let cfg := resolveConfig (_config w) (env w) in
  let agent := {| agent_name := "MySQL Assistant"; agent_model := model cfg;
                  instructions := INSTRUCTIONS_HEAD +:+ Number_toString (rowLimit cfg)
                                  +:+ INSTRUCTIONS_TAIL |} in
  let outcome := run drv agent prompt (maxTurns cfg) (_db w, server w) in
  exists w' res,
    runMySQLAgent drv prompt None w = (w', Ok res)
    /\ trace w' = (trace w ++ [EvRun prompt])%list
    /\ (_db w', server w') = fst outcome
    /\ match snd outcome with
       | Ok out => success res = true /\ data res = Some (DFinalOutput out)
       | Throw e => success res = false /\ error res = Some (errorText e)
       end.
Proof.
  cbv zeta. unfold runMySQLAgent. rewrite executeMySQLTask_run, dispatch_chat.
  unfold createAgent, getConfig, run_agent. munfold.
  cbn [_db _config env server trace tick outside message].
  destruct (run drv _ prompt _ (_db w, server w)) as [[db sv] [out|e]];
    eexists _, _; repeat split.
Qed.

End Delegation.

(** ** Runs against the catalog driver *)

Lemma task_keeps_handle_witness :
  let w := Catalog.connected ∅ in
  let t := {| task := Some LIST_TABLES; params := None |} in
  _db (fst (executeMySQLTask Catalog.driver (Some t) None w)) = Some 0.
Proof.
  cbv zeta.
  assert (Ht : task {| task := Some LIST_TABLES; params := None |} <> Some CHAT)
    by (intros H; vm_compute in H; discriminate H).
  assert (Hdb : _db (Catalog.connected ∅) = Some 0) by (vm_compute; reflexivity).
  exact (proj1 (task_keeps_handle Catalog.driver _ _ 0 Ht Hdb)).
Defined.

Lemma open_close_round_trip_witness :
  let w := Toy.world true ∅ in
  let w' := fst ((getConnection Catalog.driver;; closeConnection Catalog.driver) w) in
  _db w' = None
  /\ _config w' = _config w
  /\ server w' = Toy.end_ 0 (fst (Toy.createConnection (connectOptions w) (server w)))
  /\ trace w' = (trace w ++ [EvConnect (connectOptions w); EvEnd 0])%list.
Proof.
  cbv zeta.
  assert (Hdb : _db (Toy.world true ∅) = None) by reflexivity.
  assert (Hc : createConnection Catalog.driver (connectOptions (Toy.world true ∅))
                 (server (Toy.world true ∅))
               = (fst (Toy.createConnection (connectOptions (Toy.world true ∅))
                         (server (Toy.world true ∅))), Ok 0))
    by (vm_compute; reflexivity).
  exact (open_close_round_trip Catalog.driver _ _ 0 Hdb Hc).
Defined.

Lemma config_argument_ends_handle_witness :
  let w := Catalog.connected ∅ in
  let w' := fst (executeMySQLTask Catalog.driver
                   (Some (queryTask (Some "SELECT 1") None)) (Some emptyConfig) w) in
  (exists rest, trace w' = (trace w ++ EvEnd 0 :: rest)%list)
  /\ _config w' = _config w.
Proof.
  cbv zeta.
  assert (Hdb : _db (Catalog.connected ∅) = Some 0) by (vm_compute; reflexivity).
  destruct (config_argument_ends_handle Catalog.driver
              (Some (queryTask (Some "SELECT 1") None)) emptyConfig _ 0 Hdb)
    as (Ht & _ & Hc).
  split; [exact Ht | exact (Hc eq_refl)].
Defined.

Lemma getSchemaImpl_statements_witness :
  let name := Some (VString "users") in
  trace (fst (getSchemaImpl Catalog.driver name (Toy.world true ∅)))
  = [EvConnect (ByFields "localhost" (Num 3306) "root" "" "mysql");
     EvExecute 0 SQL_COLUMNS [name]; EvExecute 0 SQL_INDEXES [name];
     EvExecute 0 SQL_FOREIGN_KEYS [name]]
  /\ exists c i f,
       snd (getSchemaImpl Catalog.driver name (Toy.world true ∅))
       = Ok {| table := name; columns := c; indexes := i; foreign_keys := f |}.
Proof.
  cbv zeta.
  pose proof (getSchemaImpl_statements Catalog.driver (Some (VString "users"))
                (Toy.world true ∅)) as H.
  cbv zeta in H.
  destruct (getConnection Catalog.driver (Toy.world true ∅)) as [w1 [h|e]] eqn:Hc;
    vm_compute in Hc; [| discriminate Hc].
  injection Hc as <- <-.
  destruct (snd (execute Catalog.driver 0 SQL_COLUMNS [Some (VString "users")] _))
    as [c|e1] eqn:E1; [| vm_compute in E1; discriminate E1].
  destruct (snd (execute Catalog.driver 0 SQL_INDEXES [Some (VString "users")] _))
    as [i|e2] eqn:E2; [| vm_compute in E2; discriminate E2].
  destruct (snd (execute Catalog.driver 0 SQL_FOREIGN_KEYS [Some (VString "users")] _))
    as [f|e3] eqn:E3; [| vm_compute in E3; discriminate E3].
  destruct H as (Hr & Ht & _). split.
  - rewrite Ht. vm_compute. reflexivity.
  - exists c, i, f. exact Hr.
Defined.

Lemma getAllSchemasImpl_order_witness :
  let orders := Some (VString "orders") in
  let users := Some (VString "users") in
  exists w' l,
    getAllSchemasImpl Catalog.driver (Toy.world true ∅) = (w', Ok l)
    /\ map table l = [orders; users]
    /\ trace w'
       = [EvConnect (ByFields "localhost" (Num 3306) "root" "" "mysql");
          EvExecute 0 SQL_BASE_TABLES [];
          EvExecute 0 SQL_COLUMNS [orders]; EvExecute 0 SQL_COLUMNS [users];
          EvExecute 0 SQL_INDEXES [orders]; EvExecute 0 SQL_INDEXES [users];
          EvExecute 0 SQL_FOREIGN_KEYS [orders]; EvExecute 0 SQL_FOREIGN_KEYS [users]].
Proof.
  cbv zeta.
  destruct (getAllSchemasImpl Catalog.driver (Toy.world true ∅)) as [w' [l|e]] eqn:E.
  - exists w', l. split; [reflexivity |].
    destruct (getAllSchemasImpl_order Catalog.driver _ _ _ E)
      as (w1 & h & ts & Hc & He & Hm & Ht).
    cbv zeta in Ht. vm_compute in Hc. injection Hc as <- <-.
    vm_compute in He. injection He as <-.
    split; [rewrite Hm | rewrite Ht]; vm_compute; reflexivity.
  - exfalso. vm_compute in E. discriminate E.
Defined.


Lemma read_query_ignores_flags_witness :
  let w := Catalog.connected ∅ in
  runQueryImpl Catalog.driver (Some "SELECT * FROM users") (Some true) w
  = runQueryImpl Catalog.driver (Some "SELECT * FROM users") None w.
Proof.
  cbv zeta.
  assert (Hr : isWriteQuery "SELECT * FROM users" = false) by reflexivity.
  exact (proj1 (read_query_ignores_flags Catalog.driver _ (Catalog.connected ∅) Hr)
           (Some true) None).
Defined.

Lemma query_duration_within_envelope_witness :
  exists w' r qr d,
    executeMySQLTask Catalog.driver (Some (queryTask (Some "SELECT 1") None)) None
      (Toy.world true ∅) = (w', Ok r)
    /\ data r = Some (DQuery qr)
    /\ duration_ms r = Some d
    /\ (0 <= query_duration_ms qr)%Q /\ (query_duration_ms qr <= d)%Q.
Proof.
  destruct (executeMySQLTask Catalog.driver (Some (queryTask (Some "SELECT 1") None)) None
              (Toy.world true ∅)) as [w' [r|e]] eqn:E.
  - pose proof E as E'. vm_compute in E'. injection E' as Hw Hr.
    destruct (data r) as [[| | | |qr|]|] eqn:Hd;
      try (exfalso; rewrite <- Hr in Hd; discriminate Hd).
    destruct (query_duration_within_envelope Catalog.driver _ _ _ _ _ _ E Hd)
      as (d & Hdur & H0 & Hle).
    exists w', r, qr, d. repeat split; assumption.
  - exfalso. vm_compute in E. discriminate E.
Defined.

Lemma unknown_task_witness :
  exists w' r,
    executeMySQLTask Catalog.driver
      (Some {| task := Some "drop_everything"; params := None |}) None
      (Toy.world true ∅) = (w', Ok r)
    /\ success r = false
    /\ error r = Some "Unknown task: drop_everything"
    /\ trace w' = [].
Proof.
  assert (Ht : forall t, In t TASKS -> Some "drop_everything" <> Some t).
  { intros t Hin H. injection H as <-. vm_compute in Hin.
    repeat (destruct Hin as [Hin | Hin]; [discriminate Hin |]). exact Hin. }
  destruct (unknown_task Catalog.driver (Some "drop_everything") None (Toy.world true ∅) Ht)
    as (w' & r & Hrun & Hs & He & Htr & _).
  exists w', r. repeat split; assumption.
Defined.

Lemma malformed_row_limit_witness :
  let w := Toy.world true {[ "MYSQL_ROW_LIMIT" := "ten" ]} in
  rowLimit (resolveConfig (_config w) (env w)) = NaN
  /\ executed (trace (fst (executeMySQLTask Catalog.driver
                             (Some (queryTask (Some "SELECT * FROM users") None)) None w)))
     = ["SELECT * FROM users LIMIT NaN"].
Proof.
  cbv zeta.
  assert (Hav : connection_available Catalog.driver
                  (Toy.world true {[ "MYSQL_ROW_LIMIT" := "ten" ]}))
    by (vm_compute; eauto).
  assert (Hov : read (rowLimit (_config (Toy.world true {[ "MYSQL_ROW_LIMIT" := "ten" ]})))
                = None) by reflexivity.
  assert (Henv : env (Toy.world true {[ "MYSQL_ROW_LIMIT" := "ten" ]})
                   !! "MYSQL_ROW_LIMIT" = Some "ten") by (vm_compute; reflexivity).
  assert (Hs : "ten" <> "") by discriminate.
  assert (Hnan : parseInt "ten" = NaN) by reflexivity.
  assert (Hsel : begins_with_ci "SELECT" (trim "SELECT * FROM users"))
    by (apply matchLiteral_i_iff; reflexivity).
  assert (Hlim : ~ contains " LIMIT " (toUpperCase (trim "SELECT * FROM users")))
    by (intros H; apply includes_iff in H; vm_compute in H; discriminate H).
  destruct (malformed_row_limit Catalog.driver "SELECT * FROM users" "ten" None _
              Hav Hov Henv Hs Hnan Hsel Hlim) as (H1 & _ & H2).
  split; [exact H1 | exact H2].
Defined.

Lemma runQueryTool_gate_witness :
  exists w',
    runQueryTool Catalog.driver Catalog.stringify "DELETE FROM users" false
      (Toy.world true ∅) = (w', Ok CALLER_GATE)
    /\ executed (trace w') = [].
Proof.
  assert (Hw : isWriteQuery "DELETE FROM users" = true) by reflexivity.
  destruct (runQueryTool_gate Catalog.driver Catalog.stringify "DELETE FROM users" false
              (Toy.world true ∅) Hw (or_introl eq_refl))
    as (w' & msg & Hrun & Hex & Hmsg).
  exists w'. split; [| exact Hex].
  rewrite Hrun, Hmsg; [reflexivity |].
  vm_compute. eauto.
Defined.

Lemma testConnectionImpl_first_row_witness :
  exists w',
    testConnectionImpl Catalog.driver (Toy.world true ∅)
    = (w', Ok {| version := Some (VString "8.0.36");
                 database := Some (VString "testdb");
                 user := Some (VString "root@localhost") |}).
Proof.
  edestruct (testConnectionImpl_first_row Catalog.driver (Toy.world true ∅)
               (Catalog.connected ∅) 0) as (w' & H & _).
  - vm_compute. reflexivity.
  - vm_compute. reflexivity.
  - exists w'. rewrite H. vm_compute. reflexivity.
Defined.
